(** * Y-TRUST web app: the semantic recipe retrieval of [app3.py] and the
      gateway call shared by [app2.py] and [app3.py]

    The two scripts are Streamlit pages.  What they compute themselves is
    little: [app3.py] loads a recipe table, encodes the names, picks the
    name whose embedding scores highest against the encoded query, and
    both scripts post the chosen name to the prediction service and show
    what comes back.

    Modelling conventions.
    - Text is Rocq's [string], read as ASCII text.
    - A raised Python exception is the name of its class.
    - The "name" column of the recipe table holds text.
    - The sentence encoder and the similarity of two embedding rows are
      library code working on floating-point tensors; they are taken as
      variables ([encode], [cos_sim]).  Scores live in any type with a
      comparison that behaves as [<] does on numbers that are not NaN.
    - The prediction service is a variable too ([post]), as is the view
      code that renders a successful answer ([render_results]).
    - [run_app3] is a run with a model that encodes every text, in a
      process that has not cached the table; [script_app3] is the run
      with a model that may fail and with the caches of Streamlit, and
      agrees with [run_app3] where both apply. *)

From Stdlib Require Import List String Ascii ZArith Bool Arith Lia.
From Stdlib Require Import Permutation Sorted.
From Stdlib Require Import DecimalString DecimalPos DecimalZ.
Import ListNotations.
Local Open Scope string_scope.

(** ** Python values and built-ins used by the scripts *)

Module Py.

(** An exception is identified by the name of its class. *)
Definition exn := string.

Inductive result (A : Type) : Type :=
| Ok (a : A)
| Raise (e : exn).
Arguments Ok {A} a.
Arguments Raise {A} e.

Definition bind {A B} (r : result A) (k : A -> result B) : result B :=
  match r with
  | Ok a => k a
  | Raise e => Raise e
  end.

(** [l[i]] for a position [i >= 0]: out of range raises [IndexError]. *)
Definition getitem {A} (l : list A) (i : nat) : result A :=
  match nth_error l i with
  | Some x => Ok x
  | None => Raise "IndexError"
  end.

(** Truth value of a [str]: the empty string is falsy. *)
Definition truthy (s : string) : bool :=
  match s with
  | EmptyString => false
  | String _ _ => true
  end.

(** [str.isspace] on one ASCII character: tab, line feed, vertical tab,
    form feed, carriage return, the four separators 0x1c-0x1f, space. *)
Definition isspace (c : ascii) : bool :=
  let n := nat_of_ascii c in
  ((9 <=? n)%nat && (n <=? 13)%nat) || ((28 <=? n)%nat && (n <=? 32)%nat).

Fixpoint lstrip (s : string) : string :=
  match s with
  | EmptyString => EmptyString
  | String c t => if isspace c then lstrip t else s
  end.

Fixpoint rstrip (s : string) : string :=
  match s with
  | EmptyString => EmptyString
  | String c t =>
      match rstrip t with
      | EmptyString => if isspace c then EmptyString else String c EmptyString
      | t' => String c t'
      end
  end.

(** [s.strip()] *)
Definition strip (s : string) : string := rstrip (lstrip s).

Definition isupper (c : ascii) : bool :=
  let n := nat_of_ascii c in (65 <=? n)%nat && (n <=? 90)%nat.

Definition lower_char (c : ascii) : ascii :=
  if isupper c then ascii_of_nat (nat_of_ascii c + 32) else c.

(** [s.lower()] *)
Fixpoint lower (s : string) : string :=
  match s with
  | EmptyString => EmptyString
  | String c t => String (lower_char c) (lower t)
  end.

(** [str(n)] for an [int], as an f-string formats it. *)
Definition str_of_int (n : Z) : string :=
  NilZero.string_of_int (Z.to_int n).

End Py.

Import Py.

Notation "x <- r ;; k" := (Py.bind r (fun x => k))
(at level 61, r at next level, right associativity).

(** ** pandas: the recipe table *)

Module Pandas.

(** A cell of the "name" column once the table is read. *)
Inductive cell : Type :=
| NaN
| Str (s : string).

(** The texts [read_csv] turns into NaN when it is called, as here, with
    neither [na_values] nor [keep_default_na]: the empty field and the
    reader's markers of a missing value (pandas 2). *)
Definition default_na_values : list string :=
  [ ""; "#N/A"; "#N/A N/A"; "#NA"; "-1.#IND"; "-1.#QNAN"; "-NaN"; "-nan";
    "1.#IND"; "1.#QNAN"; "<NA>"; "N/A"; "NA"; "NULL"; "NaN"; "None";
    "n/a"; "nan"; "null" ].

Definition is_na_text (na_values : list string) (s : string) : bool :=
  existsb (String.eqb s) na_values.

(** The source, seen through its "name" column: per row the text of
    the field, or [None] when the row has no such field. *)
Definition source := list (option string).

Definition parse_cell (na_values : list string) (f : option string) : cell :=
  match f with
  | None => NaN
  | Some s => if is_na_text na_values s then NaN else Str s
  end.

(** [pd.read_csv(path, na_values=...)], restricted to the "name" column. *)
Definition read_csv (na_values : list string) (src : source) : list cell :=
  map (parse_cell na_values) src.

(** [df.dropna(subset=["name"])]: the rows whose name is NaN go, the
    others stay in their order.  No name of the resulting frame is NaN,
    so its "name" column is given as the texts themselves. *)
Fixpoint dropna (df : list cell) : list string :=
  match df with
  | [] => []
  | NaN :: t => dropna t
  | Str s :: t => s :: dropna t
  end.

(** [df["name"].tolist()] *)
Definition tolist (names : list string) : list string := names.

End Pandas.

(** ** torch: scores and [argmax] *)

(** The comparison of scores.  The three laws are those of [<] on floats
  that are not NaN: two scores tie when neither is below the other
  (so [0.0] and [-0.0] tie). *)
Class ScoreOrder (Sc : Type) : Type := {
ltb : Sc -> Sc -> bool;
ltb_irrefl : forall a, ltb a a = false;
ltb_trans : forall a b c, ltb a b = true -> ltb b c = true -> ltb a c = true;
ltb_stays_below : forall a b c,
    ltb a b = false -> ltb b c = false -> ltb a c = false
}.

#[export] Instance Z_scores : ScoreOrder Z.
Proof.
refine {| ltb := Z.ltb |}.
- intros a. apply Z.ltb_irrefl.
- intros a b c Hab Hbc. apply Z.ltb_lt in Hab, Hbc. apply Z.ltb_lt. lia.
- intros a b c Hab Hbc. apply Z.ltb_ge in Hab, Hbc. apply Z.ltb_ge. lia.
Defined.

Module Torch.
Section Argmax.
Context {Sc : Type} `{ScoreOrder Sc}.

(** One pass from the left: the running best is replaced only by a
    strictly greater score. *)
Fixpoint argmax_scan (best : Sc) (best_i i : nat) (l : list Sc) : nat :=
  match l with
  | [] => best_i
  | x :: t =>
      if ltb best x
      then argmax_scan x i (S i) t
      else argmax_scan best best_i (S i) t
  end.

(** [t.argmax()] over all elements of a one-dimensional tensor; a
    tensor without elements cannot be reduced. *)
Definition argmax (scores : list Sc) : Py.result nat :=
  match scores with
  | [] => Raise "RuntimeError"
  | x :: t => Ok (argmax_scan x 0 1 t)
  end.

End Argmax.
End Torch.

Import Pandas Torch.

(** ** [app3.py]: catalog, index and query resolution *)

Section Retrieval.
Context {Sc : Type} `{ScoreOrder Sc} {Vec : Type}.

(** [model.encode(text, convert_to_tensor=True)] on one text. *)
Variable encode : string -> Vec.

(** The cosine of two embedding rows as [util.pytorch_cos_sim] computes
    it. *)
Variable cos_sim : Vec -> Vec -> Sc.

(** [load_recipes()] followed by [df_recipes["name"].tolist()]; the
    script calls [read_csv] with the reader's defaults. *)
Definition load_recipes (src : source) : list string :=
  dropna (read_csv default_na_values src).

(** [model.encode(recipe_names, convert_to_tensor=True)]: one row per
    text, in the order of the texts; no text, a tensor without rows. *)
Definition encode_many (texts : list string) : list Vec :=
  map encode texts.

(** [util.pytorch_cos_sim(query_embedding, recipe_embeddings)[0]]: the
    row of scores of the query against every row of the index.  With an
    index of no rows the matrix product inside is ill-shaped. *)
Definition pytorch_cos_sim (q : Vec) (index : list Vec) : Py.result (list Sc) :=
  match index with
  | [] => Raise "RuntimeError"
  | _ :: _ => Ok (map (cos_sim q) index)
  end.

(** Lines 111-114 of [app3.py]. *)
Definition resolve (user_query : string) (recipe_names : list string)
    (recipe_embeddings : list Vec) : Py.result string :=
  let query_embedding := encode user_query in
  scores <- pytorch_cos_sim query_embedding recipe_embeddings ;;
  best_index <- argmax scores ;;
  getitem recipe_names best_index.

End Retrieval.

(** ** The pages: what a run of each script shows and sends *)

Definition API_BASE : string :=
  "https://y-trust-003-51424904642.europe-west1.run.app".

(** [st.session_state] *)
Record Session : Type := { show_menu : bool }.

(** What a run puts on the page, in order.  The fixed furniture of the
    page (styles, header bar, titles, the input widgets themselves) is
    the same in every run and is left out. *)
Inductive widget : Type :=
| Markdown (body : string)
| Success (msg : string)
| Error (msg : string)
| Info (msg : string)
| View (what : string).

(** A [requests.post(url, json={"recipe_name": ...})]. *)
Record request : Type := { url : string; recipe_name : string }.

(** What [requests] gives back: a response, or an exception whose text
    is [e]. *)
Inductive reply : Type :=
| Response (status_code : Z) (text : string)
| Failed (e : string).

(** The answer to [GET /data/recipes] with its decoded "recipes" list. *)
Inductive listing : Type :=
| Listing (status_code : Z) (recipes : list string)
| Unreachable (e : string).

(** The state a run of [app3.py] ends in. *)
Record Page (Vec : Type) : Type := {
  session : Session;
  recipe_names : list string;
  recipe_embeddings : list Vec;
  matched_recipe : option string;
  shown : list widget;
  sent : list request;
  uncaught : option Py.exn
}.
Arguments session {Vec} _.
Arguments recipe_names {Vec} _.
Arguments recipe_embeddings {Vec} _.
Arguments matched_recipe {Vec} _.
Arguments shown {Vec} _.
Arguments sent {Vec} _.
Arguments uncaught {Vec} _.

Section Pages.
Context {Sc : Type} `{ScoreOrder Sc} {Vec : Type}.
Variable encode : string -> Vec.
Variable cos_sim : Vec -> Vec -> Sc.

(** The prediction service. *)
Variable post : request -> reply.

(** The view code of the status-200 branch: what it shows for a recipe
    and a response body. *)
Variable render_results : string -> string -> list widget.

(** The [try] block around the gateway call, the same in both scripts:
    what is shown, and the requests that went out. *)
Definition predict (name : string) : list widget * list request :=
  let req := {| url := API_BASE ++ "/ingredients/predict";
                recipe_name := lower (strip name) |} in
  match post req with
  | Response status_code text =>
      if (status_code =? 200)%Z
      then (render_results name text, [req])
      else ([Error ("🚫 API error " ++ str_of_int status_code ++ ": " ++ text)],
            [req])
  | Failed e => ([Error ("🚨 Something went wrong: " ++ e)], [req])
  end.

Definition menu_panel (s : Session) : list widget :=
  if show_menu s
  then [Markdown "## 🧭 Navigation Menu"; Markdown "- Ingredient Matching";
        Markdown "- Nutrition Details"; Markdown "- Export Options"]
  else [].

(** One run of [app3.py]: the session it starts from, whether the menu
    button was pressed, the text typed, and the recipe table. *)
Definition run_app3 (s0 : Session) (menu_pressed : bool)
    (user_query : string) (src : source) : Page Vec :=
  let s1 := if menu_pressed then {| show_menu := negb (show_menu s0) |} else s0 in
  let top := menu_panel s1 in
  let names := tolist (load_recipes src) in
  let index := encode_many encode names in
  if truthy user_query then
    match resolve encode cos_sim user_query names index with
    | Raise e =>
        {| session := s1; recipe_names := names; recipe_embeddings := index;
           matched_recipe := None; shown := top; sent := [];
           uncaught := Some e |}
    | Ok matched =>
        let '(ws, reqs) := predict matched in
        {| session := s1; recipe_names := names; recipe_embeddings := index;
           matched_recipe := Some matched;
           shown := (top ++ Success ("✅ Matched recipe: **" ++ matched ++ "**") :: ws)%list;
           sent := reqs; uncaught := None |}
    end
  else
    {| session := s1; recipe_names := names; recipe_embeddings := index;
       matched_recipe := None;
       shown := (top ++ [Info "🌿 Enter your craving to begin analysis."])%list;
       sent := []; uncaught := None |}.

(** One run of [app2.py] from the recipe listing on: the answer of the
    listing endpoint and the position picked in the select box.  It
    gives what is shown and what is sent. *)
Definition run_app2 (names : listing) (picked : nat)
    : list widget * list request :=
  let '(all_recipe_names, top) :=
    match names with
    | Listing status_code recipes =>
        if (status_code =? 200)%Z then (recipes, [])
        else ([], [Error "Failed to fetch recipe names from API."])
    | Unreachable e => ([], [Error ("Could not connect to API: " ++ e)])
    end in
  match nth_error all_recipe_names picked with
  | Some name =>
      if truthy name
      then let '(ws, reqs) := predict name in ((top ++ ws)%list, reqs)
      else ((top ++ [Info "🌿 Enter a recipe name above to begin analysis."])%list, [])
  | None => ((top ++ [Info "🌿 Enter a recipe name above to begin analysis."])%list, [])
  end.

End Pages.

(** ** Notions used in the statements *)

Section Notions.
Context {Sc : Type} `{ScoreOrder Sc}.

(** Position [i] of [scores] holds a maximum: no score is above it. *)
Definition attains_max (scores : list Sc) (i : nat) : Prop :=
  exists s, nth_error scores i = Some s /\
            forall j y, nth_error scores j = Some y -> ltb s y = false.

End Notions.

Fixpoint all_space (s : string) : bool :=
  match s with
  | EmptyString => true
  | String c t => isspace c && all_space t
  end.

Definition starts_with_space (s : string) : bool :=
  match s with
  | EmptyString => false
  | String c _ => isspace c
  end.

Fixpoint ends_with_space (s : string) : bool :=
  match s with
  | EmptyString => false
  | String c EmptyString => isspace c
  | String _ t => ends_with_space t
  end.

Fixpoint has_upper (s : string) : bool :=
  match s with
  | EmptyString => false
  | String c t => isupper c || has_upper t
  end.

(** [payload] is [name] trimmed and lowercased, said without [strip]:
    [name] is a core between two runs of whitespace, the core neither
    starts nor ends with whitespace, and [payload] is the core with its
    capital letters replaced. *)
Definition trimmed_and_lowercased (name payload : string) : Prop :=
  exists l core r,
    name = l ++ core ++ r /\
    all_space l = true /\ all_space r = true /\
    starts_with_space core = false /\ ends_with_space core = false /\
    payload = lower core /\ has_upper payload = false.

(** The request both scripts build for a chosen recipe name. *)
Definition predict_request (name : string) : request :=
  {| url := API_BASE ++ "/ingredients/predict";
     recipe_name := lower (strip name) |}.

(** The texts of the rows that have a name field, in row order. *)
Fixpoint present_names (src : source) : list string :=
  match src with
  | [] => []
  | None :: t => present_names t
  | Some s :: t => s :: present_names t
  end.

(** The catalog as the specification words it: the present names that
    are not empty, in row order. *)
Definition names_missing_or_empty_removed (src : source) : list string :=
  filter (fun s => negb (String.eqb s "")) (present_names src).

(** ** A small concrete setting for running the model *)

Module Demo.

(** Embeddings are numbers: a text is encoded as its length. *)
Definition encode (text : string) : Z := Z.of_nat (String.length text).

(** Closer lengths score higher. *)
Definition cos_sim (a b : Z) : Z := (- Z.abs (a - b))%Z.

(** Every pair scores the same. *)
Definition flat (level : Z) (a b : Z) : Z := level.

Definition post (r : request) : reply :=
  if String.eqb (recipe_name r) "soup"
  then Response 200 "{}"
  else Response 404 "Recipe not found".

Definition offline (r : request) : reply := Failed "connection refused".

Definition render_results (name body : string) : list widget := [View body].

Definition recipes_csv : source :=
  [Some "Soup"; Some ""; None; Some "  Apple Pie "; Some "NA"; Some "Stew"].

End Demo.

(** ** Further notions: session start, reading a status back *)

(** Lines 23-24 of [app3.py]: a session that has no [show_menu] yet
    gets one, switched off; a session that has one keeps it. *)
Definition init_session (state : option Session) : Session :=
  match state with
  | None => {| show_menu := false |}
  | Some s => s
  end.

(** [int(text)] on a decimal numeral. *)
Definition int_of_str (text : string) : option Z :=
  option_map Z.of_int (NilZero.int_of_string text).

(** No character of the text is a colon. *)
Fixpoint colon_free (s : string) : bool :=
  match s with
  | EmptyString => true
  | String c t => negb (Ascii.eqb c ":") && colon_free t
  end.

(** The text of the error shown for a response that is not a 200. *)
Definition api_error_text (status_code : Z) (text : string) : string :=
  "🚫 API error " ++ str_of_int status_code ++ ": " ++ text.

(** ** Trimming and case, said without [strip] and [lower] *)

(** The text has only characters of the ASCII range, on which the model
    of [str.strip] and [str.lower] above is that of Python. *)
Fixpoint is_ascii (s : string) : bool :=
  match s with
  | EmptyString => true
  | String c t => (nat_of_ascii c <? 128)%nat && is_ascii t
  end.

(** The whitespace characters of the ASCII range, one by one. *)
Definition whitespace_chars : list ascii :=
  ["009"; "010"; "011"; "012"; "013"; "028"; "029"; "030"; "031"; " "]%char.

Definition is_whitespace (c : ascii) : bool :=
  existsb (Ascii.eqb c) whitespace_chars.

Fixpoint blank (s : string) : bool :=
  match s with
  | EmptyString => true
  | String c t => is_whitespace c && blank t
  end.

Definition first_char (s : string) : option ascii :=
  match s with
  | EmptyString => None
  | String c _ => Some c
  end.

Fixpoint last_char (s : string) : option ascii :=
  match s with
  | EmptyString => None
  | String c EmptyString => Some c
  | String _ t => last_char t
  end.

(** The capital letters with their small letters. *)
Definition letter_table : list (ascii * ascii) :=
  combine (list_ascii_of_string "ABCDEFGHIJKLMNOPQRSTUVWXYZ")
          (list_ascii_of_string "abcdefghijklmnopqrstuvwxyz").

Definition small_letter (c : ascii) : ascii :=
  match find (fun p => Ascii.eqb (fst p) c) letter_table with
  | Some p => snd p
  | None => c
  end.

(** The text with each capital letter replaced by its small letter. *)
Fixpoint small_letters (s : string) : string :=
  match s with
  | EmptyString => EmptyString
  | String c t => String (small_letter c) (small_letters t)
  end.


(** ** The catalog as Python values: the type the reader gives the column *)

(** [pd.read_csv] is called without [dtype], so it chooses the type of
    the "name" column from its fields: when every field that is not a
    marker of a missing value parses as a number (or a boolean), the
    column holds numbers and the catalog is a list of numbers; otherwise
    it holds the texts.  Which texts parse as numbers, and what numbers
    they give, belongs to the reader and is left open. *)
Inductive name_value (Num : Type) : Type :=
| Text (s : string)
| Number (n : Num).
Arguments Text {Num} s.
Arguments Number {Num} n.

Section TypedColumn.
Variable Num : Type.

(** The reader's test: the field parses as a number or a boolean. *)
Variable parses_as_number : string -> bool.

(** The catalog of a column the reader has read as numbers. *)
Variable numeric_names : source -> list Num.

(** The column stays text: no field is kept, or some kept field does
    not parse as a number. *)
Definition text_column (src : source) : bool :=
  match load_recipes src with
  | [] => true
  | kept => negb (forallb parses_as_number kept)
  end.

(** [load_recipes()] and [df_recipes["name"].tolist()] with the type of
    the values. *)
Definition catalog_values (src : source) : list (name_value Num) :=
  if text_column src
  then map Text (load_recipes src)
  else map Number (numeric_names src).

End TypedColumn.

Module DemoReader.

Definition is_digit (c : ascii) : bool :=
  let n := nat_of_ascii c in (48 <=? n)%nat && (n <=? 57)%nat.

Fixpoint all_digits (s : string) : bool :=
  match s with
  | EmptyString => true
  | String c t => is_digit c && all_digits t
  end.

(** A reader that takes the non-empty runs of digits for numbers. *)
Definition parses_as_number (s : string) : bool :=
  Py.truthy s && all_digits s.

Definition numeric_names (src : source) : list Z :=
  map (fun s => match int_of_str s with Some n => n | None => 0%Z end)
      (load_recipes src).

End DemoReader.

(** ** A run of [app3.py] with an encoder that can fail, and the caches *)

(** What Streamlit keeps between the runs of a process: the frame of
    [load_recipes] under [@st.cache_data], given by its names, and the
    model of [load_model] under [@st.cache_resource], given by what its
    [encode] does on a text: an embedding, or an exception. *)
Record Caches (Vec : Type) : Type := {
  cached_recipes : option (list string);
  cached_model : option (string -> Py.result Vec)
}.
Arguments cached_recipes {Vec} _.
Arguments cached_model {Vec} _.

Section Script.
Context {Sc : Type} `{ScoreOrder Sc} {Vec : Type}.
Variable cos_sim : Vec -> Vec -> Sc.
Variable post : request -> reply.
Variable render_results : string -> string -> list widget.

(** [SentenceTransformer("all-MiniLM-L6-v2")]: the model, or the
    exception of a load that fails. *)
Variable load_model : Py.result (string -> Py.result Vec).

(** What [model.encode([])] does: [None] for a tensor without rows (the
    current releases of the library), [Some e] for raising [e] (older
    ones). *)
Variable no_text_error : option Py.exn.

(** Lines 111-114 with the query already encoded. *)
Definition resolve_embedding (query_embedding : Vec)
    (recipe_names : list string) (recipe_embeddings : list Vec)
    : Py.result string :=
  scores <- pytorch_cos_sim cos_sim query_embedding recipe_embeddings ;;
  best_index <- argmax scores ;;
  getitem recipe_names best_index.

(** The rows of the texts one after the other; the first text that
    cannot be encoded ends it. *)
Fixpoint encode_each (model : string -> Py.result Vec) (texts : list string)
    : Py.result (list Vec) :=
  match texts with
  | [] => Ok []
  | text :: rest =>
      row <- model text ;;
      rows <- encode_each model rest ;;
      Ok (row :: rows)
  end.

(** [model.encode(recipe_names, convert_to_tensor=True)] *)
Definition encode_list (model : string -> Py.result Vec) (texts : list string)
    : Py.result (list Vec) :=
  match texts, no_text_error with
  | [], Some e => Raise e
  | _, _ => encode_each model texts
  end.

(** [load_recipes()] through its cache, then [tolist()]. *)
Definition catalog_of (caches : Caches Vec) (src : source) : list string :=
  match cached_recipes caches with
  | Some names => names
  | None => tolist (load_recipes src)
  end.

(** [load_model()] through its cache. *)
Definition model_of (caches : Caches Vec) : Py.result (string -> Py.result Vec) :=
  match cached_model caches with
  | Some model => Ok model
  | None => load_model
  end.

(** A run that an exception ends: what was on the page stays, nothing
    is matched or sent. *)
Definition stopped (s1 : Session) (names : list string) (index : list Vec)
    (e : Py.exn) : Page Vec :=
  {| session := s1; recipe_names := names; recipe_embeddings := index;
     matched_recipe := None; shown := menu_panel s1; sent := [];
     uncaught := Some e |}.

(** One run of [app3.py] in a process with the given caches; it gives
    the page and the caches it leaves.  Lines 101-104 and 111-114 are
    outside the [try] block: an exception there ends the run. *)
Definition script_app3 (caches : Caches Vec) (s0 : Session)
    (menu_pressed : bool) (user_query : string) (src : source)
    : Page Vec * Caches Vec :=
  let s1 := if menu_pressed then {| show_menu := negb (show_menu s0) |} else s0 in
  let names := catalog_of caches src in
  match model_of caches with
  | Raise e =>
      (stopped s1 names [] e,
       {| cached_recipes := Some names; cached_model := None |})
  | Ok model =>
      let caches' := {| cached_recipes := Some names;
                        cached_model := Some model |} in
      match encode_list model names with
      | Raise e => (stopped s1 names [] e, caches')
      | Ok index =>
          if truthy user_query then
            match model user_query with
            | Raise e => (stopped s1 names index e, caches')
            | Ok query_embedding =>
                match resolve_embedding query_embedding names index with
                | Raise e => (stopped s1 names index e, caches')
                | Ok matched =>
                    let '(ws, reqs) := predict post render_results matched in
                    ({| session := s1; recipe_names := names;
                        recipe_embeddings := index;
                        matched_recipe := Some matched;
                        shown := (menu_panel s1
                                  ++ Success ("✅ Matched recipe: **" ++ matched ++ "**")
                                     :: ws)%list;
                        sent := reqs; uncaught := None |}, caches')
                end
            end
          else
            ({| session := s1; recipe_names := names;
                recipe_embeddings := index; matched_recipe := None;
                shown := (menu_panel s1
                          ++ [Info "🌿 Enter your craving to begin analysis."])%list;
                sent := []; uncaught := None |}, caches')
      end
  end.

End Script.

Module DemoModel.

(** A model that cannot encode a text with a question mark. *)
Definition encode (text : string) : Py.result Z :=
  if existsb (Ascii.eqb "?") (list_ascii_of_string text)
  then Raise "ValueError"
  else Ok (Demo.encode text).

Definition cold : Caches Z :=
  {| cached_recipes := None; cached_model := None |}.

End DemoModel.

(** ** The batch form of the encoder, as the library runs it *)

(** [SentenceTransformer.encode] on a list sorts the texts by length,
    longest first, encodes them in batches of [batch_size] texts, and
    puts the rows back in the order of the texts:

      length_sorted_idx = np.argsort([-len(t) for t in texts])
      sorted = [texts[i] for i in length_sorted_idx]
      rows = []; for each batch of sorted: rows.extend(rows of batch)
      rows = [rows[i] for i in np.argsort(length_sorted_idx)]

    The rows of a batch are taken to be the encodings of its texts. *)
Section Batch.
Context {Vec : Type}.
Variable encode : string -> Vec.

(** Position [i] put into positions already in the order of their keys. *)
Fixpoint insert_by (key : nat -> Z) (i : nat) (sorted : list nat) : list nat :=
  match sorted with
  | [] => [i]
  | j :: t => if (key i <=? key j)%Z then i :: sorted
              else j :: insert_by key i t
  end.

(** [np.argsort(keys)]: the positions of [keys] in the order of the keys. *)
Definition argsort (keys : list Z) : list nat :=
  fold_right (insert_by (fun i => nth i keys 0%Z)) [] (seq 0 (List.length keys)).

(** [[l[i] for i in positions]] *)
Fixpoint gather {A : Type} (l : list A) (positions : list nat)
    : Py.result (list A) :=
  match positions with
  | [] => Ok []
  | i :: rest =>
      x <- getitem l i ;;
      xs <- gather l rest ;;
      Ok (x :: xs)
  end.

(** The slices [l[k : k + size]] for [k = 0, size, 2 * size, ...]; the
    first argument bounds the number of slices. *)
Fixpoint batches {A : Type} (bound size : nat) (l : list A) : list (list A) :=
  match bound, l with
  | 0, _ | _, [] => []
  | S bound', _ => firstn size l :: batches bound' size (skipn size l)
  end.

(** The batch form, for the order [length_sorted_idx] that the first
    [argsort] has given. *)
Definition encode_batch (length_sorted_idx : list nat) (batch_size : nat)
    (texts : list string) : Py.result (list Vec) :=
  sentences_sorted <- gather texts length_sorted_idx ;;
  let all_embeddings :=
    List.concat (map (map encode)
                (batches (List.length sentences_sorted) batch_size
                         sentences_sorted)) in
  gather all_embeddings (argsort (map Z.of_nat length_sorted_idx)).

(** The order the first [argsort] gives in this model. *)
Definition by_length (texts : list string) : list nat :=
  argsort (map (fun t => (- Z.of_nat (String.length t))%Z) texts).

End Batch.

(** * Properties *)

(** ** The scan behind [argmax] *)

Section ArgmaxFacts.
Context {Sc : Type} `{ScoreOrder Sc}.

Lemma ltb_asym (a b : Sc) : ltb a b = true -> ltb b a = false.
Proof.
  intros Hab. destruct (ltb b a) eqn:Hba; [|reflexivity].
  rewrite <- (ltb_irrefl a). symmetry. now apply ltb_trans with b.
Qed.

Lemma ltb_below_then_above (a b c : Sc) :
  ltb a b = false -> ltb a c = true -> ltb b c = true.
Proof.
  intros Hab Hac. destruct (ltb b c) eqn:Hbc; [reflexivity|].
  rewrite (ltb_stays_below a b c Hab Hbc) in Hac. discriminate.
Qed.

Lemma ltb_above_then_below (a b c : Sc) :
  ltb a b = false -> ltb a c = true -> ltb c b = false.
Proof.
  intros Hab Hac. destruct (ltb c b) eqn:Hcb; [|reflexivity].
  rewrite (ltb_trans a c b Hac Hcb) in Hab. discriminate.
Qed.

(** Where the scan ends.  Either the running best survives, and nothing
    in the rest is above it; or the scan ends on an element of the rest
    that is above the running best, above everything before it in the
    rest, and not below anything in the rest. *)
Lemma argmax_scan_spec (l : list Sc) :
  forall best best_i i,
    (argmax_scan best best_i i l = best_i /\
     forall j y, nth_error l j = Some y -> ltb best y = false)
    \/
    (exists k x,
        argmax_scan best best_i i l = i + k /\
        nth_error l k = Some x /\
        ltb best x = true /\
        (forall j y, j < k -> nth_error l j = Some y -> ltb y x = true) /\
        (forall j y, nth_error l j = Some y -> ltb x y = false)).
Proof.
  induction l as [|x t IH]; intros best best_i i; simpl.
  - left. split; [reflexivity|]. intros [|j] y Hj; discriminate.
  - destruct (ltb best x) eqn:Hbx.
    + right.
      destruct (IH x i (S i)) as [[Hr Hall] | (k & x' & Hr & Hk & Hxx' & Hbefore & Hall)].
      * exists 0, x. rewrite Hr, Nat.add_0_r. repeat split; trivial.
        -- intros j y Hj. lia.
        -- intros [|j] y Hj; simpl in Hj.
           ++ injection Hj as <-. apply ltb_irrefl.
           ++ eauto.
      * exists (S k), x'. rewrite Hr. repeat split; trivial.
        -- lia.
        -- now apply ltb_trans with x.
        -- intros [|j] y Hlt Hj; simpl in Hj.
           ++ now injection Hj as <-.
           ++ apply (Hbefore j); [lia | assumption].
        -- intros [|j] y Hj; simpl in Hj.
           ++ injection Hj as <-. now apply ltb_asym.
           ++ eauto.
    + destruct (IH best best_i (S i)) as [[Hr Hall] | (k & x' & Hr & Hk & Hbx' & Hbefore & Hall)].
      * left. split; [assumption|].
        intros [|j] y Hj; simpl in Hj.
        -- now injection Hj as <-.
        -- eauto.
      * right. exists (S k), x'. rewrite Hr. repeat split; trivial.
        -- lia.
        -- intros [|j] y Hlt Hj; simpl in Hj.
           ++ injection Hj as <-. now apply ltb_below_then_above with best.
           ++ apply (Hbefore j); [lia | assumption].
        -- intros [|j] y Hj; simpl in Hj.
           ++ injection Hj as <-. now apply ltb_above_then_below with best.
           ++ eauto.
Qed.

(** [argmax] of a tensor with elements gives a position of the tensor,
    no score is above the one there, and every score before it is
    strictly below. *)
Lemma argmax_spec (scores : list Sc) :
  scores <> [] ->
  exists best s,
    argmax scores = Ok best /\
    nth_error scores best = Some s /\
    (forall j y, nth_error scores j = Some y -> ltb s y = false) /\
    (forall j y, j < best -> nth_error scores j = Some y -> ltb y s = true).
Proof.
  destruct scores as [|x t]; [congruence|]. intros _. simpl.
  destruct (argmax_scan_spec t x 0 1)
    as [[Hr Hall] | (k & x' & Hr & Hk & Hxx' & Hbefore & Hall)].
  - exists 0, x. rewrite Hr. repeat split; trivial.
    + intros [|j] y Hj; simpl in Hj.
      * injection Hj as <-. apply ltb_irrefl.
      * eauto.
    + intros j y Hlt. lia.
  - exists (S k), x'. rewrite Hr. repeat split; trivial.
    + intros [|j] y Hj; simpl in Hj.
      * injection Hj as <-. now apply ltb_asym.
      * eauto.
    + intros [|j] y Hlt Hj; simpl in Hj.
      * now injection Hj as <-.
      * apply (Hbefore j); [lia | assumption].
Qed.

(** The position [argmax] gives is the lowest one that holds a maximum. *)
Lemma argmax_lowest (scores : list Sc) (i : nat) :
  attains_max scores i ->
  (forall j, attains_max scores j -> i <= j) ->
  argmax scores = Ok i.
Proof.
  intros (si & Hi & Himax) Hlow.
  assert (Hne : scores <> []) by (destruct scores; [destruct i|]; discriminate).
  destruct (argmax_spec scores Hne) as (best & s & Hr & Hs & Hmax & Hbefore).
  rewrite Hr. f_equal.
  assert (Hle : i <= best) by (apply Hlow; exists s; auto).
  destruct (Nat.eq_dec best i) as [|Hneq]; [assumption|].
  assert (Hlt : ltb si s = true) by (apply (Hbefore i); [lia | assumption]).
  rewrite (Himax best s Hs) in Hlt. discriminate.
Qed.

End ArgmaxFacts.

(** ** The resolver *)

Section ResolverFacts.
Context {Sc : Type} `{ScoreOrder Sc} {Vec : Type}.
Variable encode : string -> Vec.
Variable cos_sim : Vec -> Vec -> Sc.

Lemma truthy_nonempty (s : string) : s <> "" -> truthy s = true.
Proof. destruct s; [congruence | reflexivity]. Qed.

Lemma pytorch_cos_sim_rows (q : Vec) (index : list Vec) :
  index <> [] -> pytorch_cos_sim cos_sim q index = Ok (map (cos_sim q) index).
Proof. destruct index; [congruence | reflexivity]. Qed.

Lemma encode_many_length (texts : list string) :
  List.length (encode_many encode texts) = List.length texts.
Proof. apply List.length_map. Qed.

Lemma encode_many_row (texts : list string) (i : nat) :
  nth_error (encode_many encode texts) i = option_map encode (nth_error texts i).
Proof. apply nth_error_map. Qed.

(** With a catalog of at least one name and an index of as many rows,
    the resolver ends on a name of the catalog, at a position that holds
    a maximum of the scores and has only lower scores before it. *)
Lemma resolve_spec (q : string) (names : list string) (index : list Vec) :
  names <> [] -> List.length index = List.length names ->
  exists best name s,
    resolve encode cos_sim q names index = Ok name /\
    nth_error names best = Some name /\
    nth_error (map (cos_sim (encode q)) index) best = Some s /\
    (forall j y, nth_error (map (cos_sim (encode q)) index) j = Some y ->
                 ltb s y = false) /\
    (forall j y, j < best ->
                 nth_error (map (cos_sim (encode q)) index) j = Some y ->
                 ltb y s = true).
Proof.
  intros Hne Hlen.
  assert (Hidx : index <> []) by (destruct index, names; simpl in *; congruence).
  assert (Hsc : map (cos_sim (encode q)) index <> [])
    by (destruct index; simpl; congruence).
  destruct (argmax_spec _ Hsc) as (best & s & Hr & Hs & Hmax & Hbefore).
  assert (Hin : best < List.length names).
  { rewrite <- Hlen, <- (List.length_map (cos_sim (encode q))).
    apply nth_error_Some. congruence. }
  destruct (nth_error names best) as [name|] eqn:Hname;
    [|apply nth_error_None in Hname; lia].
  exists best, name, s. repeat split; trivial.
  unfold resolve. rewrite (pytorch_cos_sim_rows _ _ Hidx). simpl.
  rewrite Hr. simpl. unfold getitem. now rewrite Hname.
Qed.

End ResolverFacts.

(** C1 (as amended).  For every query and every catalog of at least one
    name with an index of as many rows, the resolver encodes the query,
    scores it against every row of the index and ends on the catalog
    entry at a position that holds the maximum score.  Its result is
    that name alone. *)
Theorem C1_resolve_returns_name_at_max_score :
  forall (Sc : Type) (O : ScoreOrder Sc) (Vec : Type)
         (encode : string -> Vec) (cos_sim : Vec -> Vec -> Sc)
         (user_query : string) (names : list string) (index : list Vec),
    user_query <> "" ->
    names <> [] ->
    List.length index = List.length names ->
    exists best name,
      resolve encode cos_sim user_query names index = Ok name /\
      nth_error names best = Some name /\
      attains_max (map (cos_sim (encode user_query)) index) best.
Proof.
  intros Sc O Vec encode cos_sim q names index _ Hne Hlen.
  destruct (resolve_spec encode cos_sim q names index Hne Hlen)
    as (best & name & s & Hr & Hname & Hs & Hmax & _).
  exists best, name. repeat split; trivial. exists s. auto.
Qed.

Lemma C1_resolve_returns_name_at_max_score_witness :
  exists best name,
    resolve Demo.encode Demo.cos_sim "stew" ["Apple Pie"; "Soup"; "Stew"] [9; 4; 4]%Z
      = Ok name /\
    nth_error ["Apple Pie"; "Soup"; "Stew"] best = Some name /\
    attains_max (map (Demo.cos_sim (Demo.encode "stew")) [9; 4; 4]%Z) best.
Proof.
  apply (C1_resolve_returns_name_at_max_score Z Z_scores Z Demo.encode Demo.cos_sim
           "stew" ["Apple Pie"; "Soup"; "Stew"] [9; 4; 4]%Z).
  - discriminate.
  - discriminate.
  - reflexivity.
Defined.

(** C1 as stated fails: the result of the resolver does not carry the
    best score.  No function reads the maximum score off the result,
    since two score tables give the same result with different maxima. *)
Lemma C1_result_does_not_carry_score :
  ~ exists score_of : Py.result string -> Z,
      forall (cos_sim : Z -> Z -> Z) (user_query : string)
             (names : list string) (index : list Z),
        user_query <> "" -> names <> [] -> List.length index = List.length names ->
        exists best,
          attains_max (map (cos_sim (Demo.encode user_query)) index) best /\
          nth_error (map (cos_sim (Demo.encode user_query)) index) best =
            Some (score_of (resolve Demo.encode cos_sim user_query names index)).
Proof.
  intros [score_of Hcarry].
  assert (Hq : "soup" <> "") by discriminate.
  assert (Hn : ["Soup"] <> []) by discriminate.
  destruct (Hcarry (Demo.flat 0) "soup" ["Soup"] [4%Z] Hq Hn eq_refl)
    as (b0 & _ & H0).
  destruct (Hcarry (Demo.flat 1) "soup" ["Soup"] [4%Z] Hq Hn eq_refl)
    as (b1 & _ & H1).
  destruct b0 as [|[|b0]]; simpl in H0; try discriminate.
  destruct b1 as [|[|b1]]; simpl in H1; try discriminate.
  unfold Demo.flat in H0, H1.
  change (resolve Demo.encode (fun _ _ : Z => 1%Z) "soup" ["Soup"] [4%Z])
    with (@Ok string "Soup") in H1.
  change (resolve Demo.encode (fun _ _ : Z => 0%Z) "soup" ["Soup"] [4%Z])
    with (@Ok string "Soup") in H0.
  congruence.
Qed.

(** C2.  Whenever several positions hold the maximum score, the
    resolver ends on the lowest of them: if position [i] holds a maximum
    and no lower position does, the result is the catalog entry at [i].
    With two entries that score the same, it is the first. *)
Theorem C2_ties_resolve_to_lowest_position :
  forall (Sc : Type) (O : ScoreOrder Sc) (Vec : Type)
         (encode : string -> Vec) (cos_sim : Vec -> Vec -> Sc)
         (user_query : string) (names : list string) (index : list Vec)
         (i : nat) (name : string),
    List.length index = List.length names ->
    nth_error names i = Some name ->
    attains_max (map (cos_sim (encode user_query)) index) i ->
    (forall j, attains_max (map (cos_sim (encode user_query)) index) j -> i <= j) ->
    resolve encode cos_sim user_query names index = Ok name.
Proof.
  intros Sc O Vec encode cos_sim q names index i name Hlen Hname Hmax Hlow.
  assert (Hidx : index <> []).
  { destruct Hmax as (s & Hs & _). destruct index; [destruct i|]; discriminate. }
  unfold resolve. rewrite (pytorch_cos_sim_rows _ _ _ Hidx). simpl.
  rewrite (argmax_lowest _ i Hmax Hlow). simpl.
  unfold getitem. now rewrite Hname.
Qed.

Lemma C2_ties_resolve_to_lowest_position_witness :
  resolve Demo.encode (Demo.flat 7) "something warm" ["Soup"; "Stew"] [4; 4]%Z
    = Ok "Soup".
Proof.
  apply (C2_ties_resolve_to_lowest_position Z Z_scores Z Demo.encode (Demo.flat 7)
           "something warm" ["Soup"; "Stew"] [4; 4]%Z 0 "Soup").
  - reflexivity.
  - reflexivity.
  - exists 7%Z. split; [reflexivity|].
    intros [|[|[|j]]] y Hj; simpl in Hj; try discriminate;
      injection Hj as <-; reflexivity.
  - intros j _. lia.
Defined.

Section PageFacts.
Context {Sc : Type} `{ScoreOrder Sc} {Vec : Type}.
Variable encode : string -> Vec.
Variable cos_sim : Vec -> Vec -> Sc.
Variable post : request -> reply.
Variable render_results : string -> string -> list widget.

(** The fields of a run that do not depend on how resolution goes. *)
Lemma run_app3_catalog (s0 : Session) (pressed : bool) (q : string) (src : source) :
  let p := run_app3 encode cos_sim post render_results s0 pressed q src in
  recipe_names p = load_recipes src /\
  recipe_embeddings p = encode_many encode (load_recipes src).
Proof.
  unfold run_app3, tolist.
  destruct (truthy q); [|split; reflexivity].
  destruct (resolve _ _ _ _ _); [|split; reflexivity].
  destruct (predict _ _ _); split; reflexivity.
Qed.

(** A run whose resolution gives [name]. *)
Lemma run_app3_matched (s0 : Session) (pressed : bool) (q : string)
    (src : source) (name : string) :
  q <> "" ->
  resolve encode cos_sim q (load_recipes src)
    (encode_many encode (load_recipes src)) = Ok name ->
  let p := run_app3 encode cos_sim post render_results s0 pressed q src in
  matched_recipe p = Some name /\
  uncaught p = None /\
  sent p = snd (predict post render_results name) /\
  shown p = (menu_panel (session p)
             ++ Success ("✅ Matched recipe: **" ++ name ++ "**")
                :: fst (predict post render_results name))%list.
Proof.
  intros Hq Hres. unfold run_app3, tolist.
  rewrite (truthy_nonempty q Hq), Hres.
  destruct (predict post render_results name) as [ws reqs].
  repeat split; reflexivity.
Qed.

(** What a run can leave in [matched_recipe]. *)
Lemma run_app3_matched_inv (s0 : Session) (pressed : bool) (q : string)
    (src : source) (name : string) :
  matched_recipe (run_app3 encode cos_sim post render_results s0 pressed q src)
    = Some name ->
  q <> "" /\
  resolve encode cos_sim q (load_recipes src)
    (encode_many encode (load_recipes src)) = Ok name.
Proof.
  unfold run_app3, tolist.
  destruct q as [|c q]; simpl truthy; cbv iota; [discriminate|].
  destruct (resolve _ _ _ _ _) as [m|e] eqn:Hres.
  - destruct (predict _ _ _). simpl. intros [= ->]. split; [discriminate | reflexivity].
  - discriminate.
Qed.

End PageFacts.

(** C3 (as amended).  For every non-empty query, a run over a catalog
    without entries ends in an uncaught [RuntimeError] raised inside the
    tensor library: no recipe is matched, no match is shown and nothing
    is sent. *)
Theorem C3_empty_catalog_raises_runtime_error :
  forall (Sc : Type) (O : ScoreOrder Sc) (Vec : Type)
         (encode : string -> Vec) (cos_sim : Vec -> Vec -> Sc)
         (post : request -> reply)
         (render_results : string -> string -> list widget)
         (s0 : Session) (menu_pressed : bool) (user_query : string)
         (src : source),
    user_query <> "" ->
    load_recipes src = [] ->
    let p := run_app3 encode cos_sim post render_results
               s0 menu_pressed user_query src in
    uncaught p = Some "RuntimeError" /\
    matched_recipe p = None /\
    shown p = menu_panel (session p) /\
    sent p = [].
Proof.
  intros Sc O Vec encode cos_sim post render s0 pressed q src Hq Hempty.
  unfold run_app3, tolist. rewrite (truthy_nonempty q Hq), Hempty.
  simpl. repeat split; reflexivity.
Qed.

Lemma C3_empty_catalog_raises_runtime_error_witness :
  let p := run_app3 Demo.encode Demo.cos_sim Demo.post Demo.render_results
             {| show_menu := false |} false "soup" [Some ""; None; Some "NA"] in
  uncaught p = Some "RuntimeError" /\
  matched_recipe p = None /\
  shown p = menu_panel (session p) /\
  sent p = [].
Proof.
  apply (C3_empty_catalog_raises_runtime_error Z Z_scores Z Demo.encode Demo.cos_sim
           Demo.post Demo.render_results {| show_menu := false |} false "soup"
           [Some ""; None; Some "NA"]).
  - discriminate.
  - reflexivity.
Defined.

(** C3 as stated fails: over the empty catalog the run does not end in
    an [EmptyCatalogError]. *)
Lemma C3_no_empty_catalog_error :
  uncaught (run_app3 Demo.encode Demo.cos_sim Demo.post Demo.render_results
              {| show_menu := false |} false "soup" [])
    <> Some "EmptyCatalogError".
Proof. discriminate. Qed.

(** ** The catalog loader *)

Lemma load_recipes_filter (src : source) :
  load_recipes src =
  filter (fun s => negb (is_na_text default_na_values s)) (present_names src).
Proof.
  unfold load_recipes, read_csv.
  induction src as [|[s|] t IH]; [reflexivity | |];
    cbn [map parse_cell present_names filter].
  - destruct (is_na_text default_na_values s);
      cbn [dropna negb]; now rewrite IH.
  - cbn [dropna]. exact IH.
Qed.

Lemma present_names_In (src : source) (s : string) :
  In s (present_names src) <-> In (Some s) src.
Proof.
  induction src as [|[x|] t IH]; simpl.
  - tauto.
  - rewrite IH. split; intros [Hx|Hx]; auto; left; congruence.
  - rewrite IH. split; [auto | intros [Hx|Hx]; [discriminate | assumption]].
Qed.

Lemma load_recipes_In (src : source) (s : string) :
  In s (load_recipes src) <->
  In (Some s) src /\ is_na_text default_na_values s = false.
Proof.
  rewrite load_recipes_filter, filter_In, present_names_In, negb_true_iff.
  reflexivity.
Qed.

Lemma In_map_Text {Num : Type} (s : string) (l : list string) :
  In (@Text Num s) (map Text l) <-> In s l.
Proof.
  rewrite in_map_iff. split.
  - intros (x & [= ->] & Hx). exact Hx.
  - intros Hs. exists s. auto.
Qed.

(** On a column that stays text the typed catalog is the texts the
    pages work with. *)
Lemma catalog_values_text {Num : Type} (parses_as_number : string -> bool)
    (numeric_names : source -> list Num) (src : source) :
  text_column parses_as_number src = true ->
  catalog_values Num parses_as_number numeric_names src
    = map Text (load_recipes src).
Proof. intros Htext. unfold catalog_values. now rewrite Htext. Qed.

(** C5 (as amended).  For a table whose "name" column the reader keeps
    as text (not every name parses as a number), the loader returns the
    name texts of the rows, in row order, without the rows whose name is
    missing, empty, or another of the texts the table reader takes for a
    missing value (such as NA, NaN, null).  No name of the catalog is
    empty. *)
Theorem C5_loader_keeps_names_that_are_not_na :
  forall (Num : Type) (parses_as_number : string -> bool)
         (numeric_names : source -> list Num) (src : source),
    text_column parses_as_number src = true ->
    let catalog := catalog_values Num parses_as_number numeric_names src in
    catalog =
      map Text (filter (fun s => negb (is_na_text default_na_values s))
                       (present_names src)) /\
    catalog = map Text (tolist (load_recipes src)) /\
    (forall s, In (Text s) catalog <->
               In (Some s) src /\ is_na_text default_na_values s = false) /\
    ~ In (Text "") catalog.
Proof.
  intros Num parses numeric_names src Htext catalog. unfold catalog.
  rewrite (catalog_values_text parses numeric_names src Htext).
  unfold tolist. split; [now rewrite load_recipes_filter|].
  split; [reflexivity|]. split.
  - intros s. rewrite In_map_Text. apply load_recipes_In.
  - rewrite In_map_Text, load_recipes_In. intros [_ Hna]. discriminate.
Qed.

Lemma C5_loader_keeps_names_that_are_not_na_witness :
  catalog_values Z DemoReader.parses_as_number DemoReader.numeric_names
    [Some "007"; Some "Soup"; Some "NA"; None; Some ""; Some "Stew"]
  = [Text "007"; Text "Soup"; Text "Stew"].
Proof.
  apply (C5_loader_keeps_names_that_are_not_na Z DemoReader.parses_as_number
           DemoReader.numeric_names
           [Some "007"; Some "Soup"; Some "NA"; None; Some ""; Some "Stew"]).
  reflexivity.
Defined.

(** C5 as stated fails: a row named NA is neither missing nor empty, and
    the loader drops it. *)
Lemma C5_na_marker_row_is_dropped :
  tolist (load_recipes [Some "Soup"; Some "NA"; Some "Stew"])
    <> names_missing_or_empty_removed [Some "Soup"; Some "NA"; Some "Stew"].
Proof. discriminate. Qed.

(** ** [strip] and [lower] *)

Lemma lstrip_split (s : string) :
  exists l, s = l ++ lstrip s /\ all_space l = true.
Proof.
  induction s as [|c t (l & Ht & Hl)]; simpl.
  - exists "". auto.
  - destruct (isspace c) eqn:Hc.
    + exists (String c l). simpl. rewrite Hc, Hl. split; [congruence | reflexivity].
    + exists "". auto.
Qed.

Lemma lstrip_no_leading_space (s : string) :
  starts_with_space (lstrip s) = false.
Proof.
  induction s as [|c t IH]; simpl; trivial.
  destruct (isspace c) eqn:Hc; simpl; trivial.
Qed.

Lemma rstrip_split (s : string) :
  exists r, s = rstrip s ++ r /\ all_space r = true.
Proof.
  induction s as [|c t (r & Ht & Hr)]; simpl.
  - exists "". auto.
  - destruct (rstrip t) as [|c' t'] eqn:Hrt.
    + simpl in Ht. subst r. destruct (isspace c) eqn:Hc.
      * exists (String c t). simpl. rewrite Hc, Hr. auto.
      * exists t. auto.
    + exists r. simpl in Ht |- *. split; [congruence | assumption].
Qed.

Lemma rstrip_keeps_head (s : string) :
  starts_with_space s = false -> starts_with_space (rstrip s) = false.
Proof.
  destruct s as [|c t]; simpl; trivial.
  intros Hc. destruct (rstrip t); [rewrite Hc|]; simpl; trivial.
Qed.

Lemma rstrip_no_trailing_space (s : string) :
  ends_with_space (rstrip s) = false.
Proof.
  induction s as [|c t IH]; simpl; trivial.
  destruct (rstrip t) as [|c' t'] eqn:Hrt.
  - destruct (isspace c) eqn:Hc; simpl; trivial.
  - exact IH.
Qed.

Lemma strip_split (s : string) :
  exists l r,
    s = l ++ strip s ++ r /\ all_space l = true /\ all_space r = true.
Proof.
  destruct (lstrip_split s) as (l & Hs & Hl).
  destruct (rstrip_split (lstrip s)) as (r & Hm & Hr).
  exists l, r. unfold strip. rewrite <- Hm. auto.
Qed.

Lemma lower_char_not_upper (c : ascii) : isupper (lower_char c) = false.
Proof.
  destruct c as [[] [] [] [] [] [] [] []]; reflexivity.
Qed.

Lemma lower_no_upper (s : string) : has_upper (lower s) = false.
Proof.
  induction s as [|c t IH]; simpl; trivial.
  now rewrite lower_char_not_upper, IH.
Qed.

(** What both scripts put into the request is the chosen name trimmed
    and lowercased. *)
Lemma strip_lower_trimmed_and_lowercased (name : string) :
  trimmed_and_lowercased name (lower (strip name)).
Proof.
  destruct (strip_split name) as (l & r & Hname & Hl & Hr).
  exists l, (strip name), r. repeat split; trivial.
  - unfold strip. apply rstrip_keeps_head, lstrip_no_leading_space.
  - apply rstrip_no_trailing_space.
  - apply lower_no_upper.
Qed.

Lemma lstrip_all_space (r : string) : all_space r = true -> lstrip r = "".
Proof.
  induction r as [|c t IH]; simpl; trivial.
  intros Hr. apply andb_prop in Hr as [Hc Ht]. rewrite Hc. auto.
Qed.

Lemma rstrip_all_space (r : string) : all_space r = true -> rstrip r = "".
Proof.
  induction r as [|c t IH]; simpl; trivial.
  intros Hr. apply andb_prop in Hr as [Hc Ht]. now rewrite (IH Ht), Hc.
Qed.

Lemma lstrip_padding (l x : string) :
  all_space l = true -> lstrip (l ++ x) = lstrip x.
Proof.
  induction l as [|c t IH]; simpl; trivial.
  intros Hl. apply andb_prop in Hl as [Hc Ht]. rewrite Hc. auto.
Qed.

Lemma rstrip_padding (core r : string) :
  all_space r = true -> ends_with_space core = false ->
  rstrip (core ++ r) = core.
Proof.
  intros Hr. induction core as [|a t IH]; intros Hend.
  - now apply rstrip_all_space.
  - change (rstrip (String a t ++ r))
      with (match rstrip (t ++ r) with
            | EmptyString => if isspace a then EmptyString else String a EmptyString
            | t' => String a t'
            end).
    destruct t as [|b t'].
    + simpl in Hend. simpl append. rewrite (rstrip_all_space r Hr), Hend.
      reflexivity.
    + rewrite IH by exact Hend. reflexivity.
Qed.

(** Stripping a trimmed core padded with whitespace gives the core back. *)
Lemma strip_padded (l core r : string) :
  all_space l = true -> all_space r = true ->
  starts_with_space core = false -> ends_with_space core = false ->
  strip (l ++ core ++ r) = core.
Proof.
  intros Hl Hr Hstart Hend. unfold strip. rewrite (lstrip_padding _ _ Hl).
  destruct core as [|a t].
  - simpl append. now rewrite (lstrip_all_space r Hr).
  - simpl in Hstart. simpl lstrip. rewrite Hstart.
    now apply (rstrip_padding (String a t)).
Qed.

(** The wording without [strip] says no more and no less than
    [name.strip().lower()]. *)
Lemma trimmed_and_lowercased_iff (name payload : string) :
  trimmed_and_lowercased name payload <-> payload = lower (strip name).
Proof.
  split.
  - intros (l & core & r & -> & Hl & Hr & Hstart & Hend & -> & _).
    now rewrite strip_padded.
  - intros ->. apply strip_lower_trimmed_and_lowercased.
Qed.

(** ** The gateway call *)

Section GatewayFacts.
Variable post : request -> reply.
Variable render_results : string -> string -> list widget.

(** Whatever comes back, exactly one request goes out. *)
Lemma predict_sends_once (name : string) :
  snd (predict post render_results name) = [predict_request name].
Proof.
  unfold predict. fold (predict_request name).
  destruct (post (predict_request name)) as [c t|e]; [|reflexivity].
  destruct (c =? 200)%Z; reflexivity.
Qed.

Lemma predict_not_ok (name : string) (status_code : Z) (text : string) :
  post (predict_request name) = Response status_code text ->
  status_code <> 200%Z ->
  predict post render_results name =
    ([Error ("🚫 API error " ++ str_of_int status_code ++ ": " ++ text)],
     [predict_request name]).
Proof.
  intros Hpost Hcode. unfold predict. fold (predict_request name).
  rewrite Hpost. apply Z.eqb_neq in Hcode. now rewrite Hcode.
Qed.

Lemma run_app2_picked (recipes : list string) (picked : nat) (name : string) :
  nth_error recipes picked = Some name ->
  name <> "" ->
  run_app2 post render_results (Listing 200 recipes) picked =
    predict post render_results name.
Proof.
  intros Hpick Hname. unfold run_app2. simpl. rewrite Hpick.
  rewrite (truthy_nonempty name Hname).
  destruct (predict post render_results name). reflexivity.
Qed.

End GatewayFacts.

(** The two ways of saying whitespace and small letters agree. *)
Lemma is_whitespace_isspace (c : ascii) : is_whitespace c = isspace c.
Proof. destruct c as [[] [] [] [] [] [] [] []]; reflexivity. Qed.

Lemma small_letter_lower_char (c : ascii) : small_letter c = lower_char c.
Proof. destruct c as [[] [] [] [] [] [] [] []]; reflexivity. Qed.

Lemma blank_all_space (s : string) : blank s = all_space s.
Proof.
  induction s as [|c t IH]; simpl; [reflexivity|].
  now rewrite is_whitespace_isspace, IH.
Qed.

Lemma small_letters_lower (s : string) : small_letters s = lower s.
Proof.
  induction s as [|c t IH]; simpl; [reflexivity|].
  now rewrite small_letter_lower_char, IH.
Qed.

Lemma first_char_not_space (s : string) :
  (forall c, first_char s = Some c -> is_whitespace c = false) <->
  starts_with_space s = false.
Proof.
  destruct s as [|a t]; simpl.
  - split; [reflexivity | discriminate].
  - rewrite <- is_whitespace_isspace. split.
    + intros Hc. now apply Hc.
    + intros Ha c [= <-]. exact Ha.
Qed.

Lemma last_char_not_space (s : string) :
  (forall c, last_char s = Some c -> is_whitespace c = false) <->
  ends_with_space s = false.
Proof.
  induction s as [|a t IH]; [simpl; split; [reflexivity | discriminate]|].
  destruct t as [|b t'].
  - simpl. rewrite <- is_whitespace_isspace. split.
    + intros Hc. now apply Hc.
    + intros Ha c [= <-]. exact Ha.
  - exact IH.
Qed.




(** C9.  When the gateway answers the request with a status other than
    200, the run shows one error message made of the status code in
    decimal and the response body as received, sends the request once
    and no more, and ends with the catalog and the index it loaded. *)
Theorem C9_gateway_error_is_shown_verbatim :
  forall (Sc : Type) (O : ScoreOrder Sc) (Vec : Type)
         (encode : string -> Vec) (cos_sim : Vec -> Vec -> Sc)
         (post : request -> reply)
         (render_results : string -> string -> list widget)
         (s0 : Session) (menu_pressed : bool) (user_query : string)
         (src : source) (recipes : list string) (picked : nat)
         (name : string) (status_code : Z) (text : string),
    post (predict_request name) = Response status_code text ->
    status_code <> 200%Z ->
    let message :=
      Error ("🚫 API error " ++ str_of_int status_code ++ ": " ++ text) in
    (matched_recipe (run_app3 encode cos_sim post render_results
                       s0 menu_pressed user_query src) = Some name ->
     let p := run_app3 encode cos_sim post render_results
                s0 menu_pressed user_query src in
     shown p = (menu_panel (session p)
                ++ [Success ("✅ Matched recipe: **" ++ name ++ "**"); message])%list /\
     sent p = [predict_request name] /\
     uncaught p = None /\
     recipe_names p = load_recipes src /\
     recipe_embeddings p = encode_many encode (load_recipes src)) /\
    (nth_error recipes picked = Some name -> name <> "" ->
     run_app2 post render_results (Listing 200 recipes) picked =
       ([message], [predict_request name])).
Proof.
  intros Sc O Vec encode cos_sim post render s0 pressed q src recipes picked
         name code text Hpost Hcode message.
  pose proof (predict_not_ok post render name code text Hpost Hcode) as Hpred.
  split.
  - intros Hm p.
    destruct (run_app3_matched_inv encode cos_sim post render s0 pressed q src
                name Hm) as [Hq Hres].
    destruct (run_app3_matched encode cos_sim post render s0 pressed q src
                name Hq Hres) as (_ & Hu & Hsent & Hshown).
    destruct (run_app3_catalog encode cos_sim post render s0 pressed q src)
      as [Hn He].
    fold p in Hu, Hsent, Hshown, Hn, He.
    rewrite Hpred in Hsent, Hshown. simpl in Hsent, Hshown.
    repeat split; assumption.
  - intros Hpick Hname.
    rewrite (run_app2_picked post render recipes picked name Hpick Hname).
    exact Hpred.
Qed.

Lemma C9_gateway_error_is_shown_verbatim_witness :
  shown (run_app3 Demo.encode Demo.cos_sim Demo.post Demo.render_results
           {| show_menu := false |} false "a long long query" Demo.recipes_csv)
    = [Success "✅ Matched recipe: **  Apple Pie **";
       Error "🚫 API error 404: Recipe not found"] /\
  run_app2 Demo.post Demo.render_results (Listing 200 ["Soup"; "  Apple Pie "]) 1
    = ([Error "🚫 API error 404: Recipe not found"],
       [predict_request "  Apple Pie "]).
Proof.
  destruct (C9_gateway_error_is_shown_verbatim Z Z_scores Z
              Demo.encode Demo.cos_sim Demo.post Demo.render_results
              {| show_menu := false |} false "a long long query"
              Demo.recipes_csv ["Soup"; "  Apple Pie "] 1 "  Apple Pie "
              404%Z "Recipe not found" eq_refl)
    as [H3 H2]; [discriminate|].
  split.
  - apply H3. reflexivity.
  - apply H2; [reflexivity | discriminate].
Defined.

(** * Further properties of the code *)

(** ** The resolver on any catalog and index *)

Section ResolverMore.
Context {Sc : Type} `{ScoreOrder Sc} {Vec : Type}.
Variable encode : string -> Vec.
Variable cos_sim : Vec -> Vec -> Sc.

Lemma argmax_in_range (scores : list Sc) (i : nat) :
  argmax scores = Ok i -> i < List.length scores.
Proof.
  intros Hi.
  assert (Hne : scores <> []) by (destruct scores; [discriminate | congruence]).
  destruct (argmax_spec scores Hne) as (best & s & Hr & Hs & _).
  rewrite Hr in Hi. injection Hi as <-.
  apply nth_error_Some. congruence.
Qed.

Lemma resolve_rows (q : string) (names : list string) (index : list Vec) :
  index <> [] ->
  exists best,
    argmax (map (cos_sim (encode q)) index) = Ok best /\
    best < List.length index /\
    resolve encode cos_sim q names index = getitem names best.
Proof.
  intros Hidx.
  assert (Hsc : map (cos_sim (encode q)) index <> [])
    by (destruct index; simpl; congruence).
  destruct (argmax_spec _ Hsc) as (best & s & Hr & _).
  exists best. split; [assumption|]. split.
  - rewrite <- (List.length_map (cos_sim (encode q))). now apply argmax_in_range.
  - unfold resolve. rewrite (pytorch_cos_sim_rows _ _ _ Hidx). simpl.
    now rewrite Hr.
Qed.

End ResolverMore.

(** X1.  What the resolver can end in, for any catalog and index, aligned
    or not.  A name it returns is a name of the catalog.  It raises
    [RuntimeError] exactly when the index has no rows, and otherwise only
    [IndexError], which needs an index with more rows than the catalog
    has names.  With at least one row and no more rows than names it
    returns. *)
Theorem X1_resolve_outcomes :
  forall (Sc : Type) (O : ScoreOrder Sc) (Vec : Type)
         (encode : string -> Vec) (cos_sim : Vec -> Vec -> Sc)
         (user_query : string) (names : list string) (index : list Vec),
    (forall name, resolve encode cos_sim user_query names index = Ok name ->
                  In name names /\ index <> []) /\
    (resolve encode cos_sim user_query names index = Raise "RuntimeError"
       <-> index = []) /\
    (forall e, resolve encode cos_sim user_query names index = Raise e ->
               e = "RuntimeError" \/
               (e = "IndexError" /\ List.length names < List.length index)) /\
    (index <> [] -> List.length index <= List.length names ->
     exists name, resolve encode cos_sim user_query names index = Ok name).
Proof.
  intros Sc O Vec encode cos_sim q names index.
  destruct index as [|v index'] eqn:Hindex.
  - split; [discriminate|]. split; [split; reflexivity|].
    split; [intros e [= <-]; now left | congruence].
  - rewrite <- Hindex.
    assert (Hidx : index <> []) by (rewrite Hindex; discriminate).
    destruct (resolve_rows encode cos_sim q names index Hidx)
      as (best & _ & Hbest & ->).
    unfold getitem. destruct (nth_error names best) as [name|] eqn:Hname.
    + split; [|split; [|split]].
      * intros n [= <-]. split; [eapply nth_error_In; eassumption | assumption].
      * split; [discriminate | contradiction].
      * discriminate.
      * eauto.
    + apply nth_error_None in Hname. split; [|split; [|split]].
      * discriminate.
      * split; [discriminate | contradiction].
      * intros e [= <-]. right. split; [reflexivity | lia].
      * intros _ Hle. lia.
Qed.

Lemma X1_resolve_outcomes_witness :
  exists name,
    resolve Demo.encode Demo.cos_sim "stew" ["Apple Pie"; "Soup"; "Stew"] [9; 4]%Z
      = Ok name.
Proof.
  apply (proj2 (proj2 (proj2
           (X1_resolve_outcomes Z Z_scores Z Demo.encode Demo.cos_sim
              "stew" ["Apple Pie"; "Soup"; "Stew"] [9; 4]%Z)))).
  - discriminate.
  - simpl. lia.
Defined.

(** ** How the match reacts to changes of the catalog and of the scores *)

Section MatchStability.
Context {Sc : Type} `{ScoreOrder Sc}.

(** Scores added at the end that are not above the best so far leave
    [argmax] where it is. *)
Lemma argmax_app_not_above (scores more : list Sc) (best : nat) (s : Sc) :
  argmax scores = Ok best ->
  nth_error scores best = Some s ->
  (forall y, In y more -> ltb s y = false) ->
  argmax (scores ++ more) = Ok best.
Proof.
  intros Hbest Hs Hmore.
  assert (Hne : scores <> []) by (destruct scores; [discriminate | congruence]).
  destruct (argmax_spec scores Hne) as (b & s' & Hr & Hs' & Hmax & Hbefore).
  rewrite Hr in Hbest. injection Hbest as ->.
  rewrite Hs in Hs'. injection Hs' as <-.
  assert (Hlt : best < List.length scores) by (apply nth_error_Some; congruence).
  apply argmax_lowest.
  - exists s. split; [rewrite nth_error_app1; assumption|].
    intros j y Hj. destruct (Nat.lt_ge_cases j (List.length scores)) as [Hin|Hout].
    + rewrite nth_error_app1 in Hj by assumption. eauto.
    + rewrite nth_error_app2 in Hj by assumption.
      apply Hmore. eapply nth_error_In; eassumption.
  - intros j (sj & Hj & Hjmax).
    destruct (Nat.le_gt_cases best j) as [|Hlow]; [assumption|].
    assert (Hj' : nth_error scores j = Some sj)
      by (rewrite nth_error_app1 in Hj by lia; assumption).
    assert (Hup : ltb sj s = true) by (apply (Hbefore j); assumption).
    rewrite (Hjmax best s) in Hup; [discriminate|].
    rewrite nth_error_app1; assumption.
Qed.

(** The scan only looks at how scores compare: two score functions that
    compare the elements alike end on the same position. *)
Lemma argmax_scan_same_order {A Sc' : Type} {O' : ScoreOrder Sc'}
    (f : A -> Sc) (g : A -> Sc') (l : list A) :
  forall x best_i i,
    (forall u v, In u (x :: l) -> In v (x :: l) ->
                 ltb (f u) (f v) = ltb (g u) (g v)) ->
    argmax_scan (f x) best_i i (map f l) = argmax_scan (g x) best_i i (map g l).
Proof.
  induction l as [|y t IH]; intros x best_i i Hsame; simpl; trivial.
  rewrite <- (Hsame x y) by (simpl; auto).
  destruct (ltb (f x) (f y)); apply IH; intros u v Hu Hv; apply Hsame;
    simpl in *; tauto.
Qed.

End MatchStability.

(** X2.  Adding recipes at the end of an aligned catalog does not change
    the match when none of the new rows scores above every old row: for
    each new row some old row scores at least as high.  A new row that
    only ties with the best loses to it. *)
Theorem X2_match_survives_appended_recipes :
  forall (Sc : Type) (O : ScoreOrder Sc) (Vec : Type)
         (encode : string -> Vec) (cos_sim : Vec -> Vec -> Sc)
         (user_query : string) (names more_names : list string)
         (index more_rows : list Vec),
    List.length index = List.length names ->
    (forall v, In v more_rows ->
               exists u, In u index /\
                         ltb (cos_sim (encode user_query) u)
                             (cos_sim (encode user_query) v) = false) ->
    resolve encode cos_sim user_query (names ++ more_names) (index ++ more_rows)
      = resolve encode cos_sim user_query names index.
Proof.
  intros Sc O Vec encode cos_sim q names more index rows Hlen Hrows.
  destruct index as [|v0 index0] eqn:Hindex.
  - destruct rows as [|v rows']; [reflexivity|].
    destruct (Hrows v (or_introl eq_refl)) as (u & [] & _).
  - rewrite <- Hindex in *.
    assert (Hidx : index <> []) by (rewrite Hindex; discriminate).
    assert (Hidx' : (index ++ rows)%list <> [])
      by (rewrite Hindex; discriminate).
    destruct (resolve_rows encode cos_sim q names index Hidx)
      as (best & Hbest & Hin & ->).
    destruct (resolve_rows encode cos_sim q (names ++ more)%list
                (index ++ rows)%list Hidx')
      as (best' & Hbest' & _ & ->).
    assert (Hsc : map (cos_sim (encode q)) index <> [])
      by (rewrite Hindex; discriminate).
    destruct (argmax_spec _ Hsc) as (b & s & Hr & Hs & Hmax & _).
    rewrite Hr in Hbest. injection Hbest as ->.
    rewrite map_app in Hbest'.
    rewrite (argmax_app_not_above _ (map (cos_sim (encode q)) rows) best s Hr Hs)
      in Hbest'.
    + injection Hbest' as <-. unfold getitem.
      rewrite nth_error_app1 by lia. reflexivity.
    + intros y Hy. apply in_map_iff in Hy as (v & <- & Hv).
      destruct (Hrows v Hv) as (u & Hu & Huv).
      apply ltb_stays_below with (cos_sim (encode q) u); [|assumption].
      destruct (In_nth_error _ _ Hu) as [j Hj].
      apply (Hmax j). rewrite nth_error_map, Hj. reflexivity.
Qed.

Lemma X2_match_survives_appended_recipes_witness :
  resolve Demo.encode Demo.cos_sim "stew"
    (["Apple Pie"; "Soup"] ++ ["Stew"; "Minestrone"])%list
    ([9; 4]%Z ++ [4; 10]%Z)%list
  = resolve Demo.encode Demo.cos_sim "stew" ["Apple Pie"; "Soup"] [9; 4]%Z.
Proof.
  apply (X2_match_survives_appended_recipes Z Z_scores Z Demo.encode Demo.cos_sim
           "stew" ["Apple Pie"; "Soup"] ["Stew"; "Minestrone"]
           [9; 4]%Z [4; 10]%Z).
  - reflexivity.
  - intros v [<- | [<- | []]]; exists 4%Z; (split; [simpl; auto | reflexivity]).
Defined.

(** X3.  The match depends on the scores only through their order: two
    similarities, possibly with scores of different types, that compare
    the rows of the index alike for a query resolve it to the same
    result.  Rescaling the similarity by an increasing map is one case. *)
Theorem X3_match_depends_on_score_order_only :
  forall (Sc Sc' : Type) (O : ScoreOrder Sc) (O' : ScoreOrder Sc') (Vec : Type)
         (encode : string -> Vec)
         (cos_sim : Vec -> Vec -> Sc) (cos_sim' : Vec -> Vec -> Sc')
         (user_query : string) (names : list string) (index : list Vec),
    (forall u v, In u index -> In v index ->
                 ltb (cos_sim (encode user_query) u) (cos_sim (encode user_query) v)
                 = ltb (cos_sim' (encode user_query) u)
                       (cos_sim' (encode user_query) v)) ->
    resolve encode cos_sim user_query names index
      = resolve encode cos_sim' user_query names index.
Proof.
  intros Sc Sc' O O' Vec encode cos_sim cos_sim' q names index Hsame.
  destruct index as [|x t]; [reflexivity|].
  unfold resolve, pytorch_cos_sim, argmax. simpl.
  now rewrite (argmax_scan_same_order (cos_sim (encode q)) (cos_sim' (encode q))
                 t x 0 1 Hsame).
Qed.

Lemma X3_match_depends_on_score_order_only_witness :
  resolve Demo.encode Demo.cos_sim "stew" ["Apple Pie"; "Soup"; "Stew"] [9; 4; 4]%Z
  = resolve Demo.encode (fun a b => 2 * Demo.cos_sim a b + 100)%Z "stew"
      ["Apple Pie"; "Soup"; "Stew"] [9; 4; 4]%Z.
Proof.
  apply (X3_match_depends_on_score_order_only Z Z Z_scores Z_scores Z Demo.encode
           Demo.cos_sim (fun a b => 2 * Demo.cos_sim a b + 100)%Z
           "stew" ["Apple Pie"; "Soup"; "Stew"] [9; 4; 4]%Z).
  intros u v _ _. unfold ltb, Z_scores.
  apply Bool.eq_true_iff_eq. rewrite !Z.ltb_lt. lia.
Defined.

(** ** When and for what the pages call the gateway *)

Section PageCases.
Context {Sc : Type} `{ScoreOrder Sc} {Vec : Type}.
Variable encode : string -> Vec.
Variable cos_sim : Vec -> Vec -> Sc.
Variable post : request -> reply.
Variable render_results : string -> string -> list widget.

(** Over the catalog and the index a run builds, resolution fails only
    when the catalog is empty, and what it returns is in the catalog. *)
Lemma resolve_loaded (q : string) (src : source) :
  match resolve encode cos_sim q (load_recipes src)
          (encode_many encode (load_recipes src)) with
  | Ok name => In name (load_recipes src)
  | Raise e => load_recipes src = []
  end.
Proof.
  destruct (load_recipes src) as [|n names] eqn:Hload; [reflexivity|].
  destruct (resolve_spec encode cos_sim q (n :: names)
              (encode_many encode (n :: names)))
    as (best & name & s & Hres & Hname & _).
  - discriminate.
  - apply encode_many_length.
  - rewrite Hres. eapply nth_error_In; eassumption.
Qed.

(** The three ways a run of [app3.py] can go. *)
Lemma run_app3_cases (s0 : Session) (pressed : bool) (q : string) (src : source) :
  let p := run_app3 encode cos_sim post render_results s0 pressed q src in
  (q = "" /\ matched_recipe p = None /\ sent p = [] /\ uncaught p = None /\
   shown p = (menu_panel (session p)
              ++ [Info "🌿 Enter your craving to begin analysis."])%list)
  \/
  (q <> "" /\ load_recipes src = [] /\ matched_recipe p = None /\
   sent p = [] /\ uncaught p <> None /\ shown p = menu_panel (session p))
  \/
  (q <> "" /\ exists name,
      In name (load_recipes src) /\ matched_recipe p = Some name /\
      sent p = [predict_request name] /\ uncaught p = None /\
      shown p = (menu_panel (session p)
                 ++ Success ("✅ Matched recipe: **" ++ name ++ "**")
                    :: fst (predict post render_results name))%list).
Proof.
  destruct q as [|c q'].
  - left. unfold run_app3. simpl. repeat split; reflexivity.
  - right. set (q := String c q').
    assert (Hq : q <> "") by discriminate.
    pose proof (resolve_loaded q src) as Hloaded.
    destruct (resolve encode cos_sim q (load_recipes src)
                (encode_many encode (load_recipes src))) as [name|e] eqn:Hres.
    + right. split; [assumption|]. exists name.
      destruct (run_app3_matched encode cos_sim post render_results
                  s0 pressed q src name Hq Hres) as (Hm & Hu & Hsent & Hshown).
      rewrite predict_sends_once in Hsent. repeat split; assumption.
    + left. unfold run_app3, tolist. simpl truthy. cbv iota. rewrite Hres.
      simpl. repeat split; trivial; discriminate.
Qed.

Lemma run_app3_session (s0 : Session) (pressed : bool) (q : string) (src : source) :
  session (run_app3 encode cos_sim post render_results s0 pressed q src)
  = if pressed then {| show_menu := negb (show_menu s0) |} else s0.
Proof.
  unfold run_app3.
  destruct (truthy q); [|reflexivity].
  destruct (resolve _ _ _ _ _); [|reflexivity].
  destruct (predict _ _ _); reflexivity.
Qed.

End PageCases.

(** X5.  The recipe a run of [app3.py] matches is a name of the table
    as written there: it is the text of some row, it is not empty and
    not one of the reader's markers of a missing value. *)
Theorem X5_matched_recipe_comes_from_table :
  forall (Sc : Type) (O : ScoreOrder Sc) (Vec : Type)
         (encode : string -> Vec) (cos_sim : Vec -> Vec -> Sc)
         (post : request -> reply)
         (render_results : string -> string -> list widget)
         (s0 : Session) (menu_pressed : bool) (user_query : string)
         (src : source) (name : string),
    matched_recipe (run_app3 encode cos_sim post render_results
                      s0 menu_pressed user_query src) = Some name ->
    In (Some name) src /\
    name <> "" /\
    is_na_text default_na_values name = false.
Proof.
  intros Sc O Vec encode cos_sim post render s0 pressed q src name Hm.
  destruct (run_app3_matched_inv encode cos_sim post render s0 pressed q src
              name Hm) as [_ Hres].
  pose proof (resolve_loaded encode cos_sim q src) as Hloaded.
  rewrite Hres in Hloaded. apply load_recipes_In in Hloaded as [Hsrc Hna].
  repeat split; trivial. intros ->. discriminate.
Qed.

Lemma X5_matched_recipe_comes_from_table_witness :
  In (Some "  Apple Pie ") Demo.recipes_csv /\
  "  Apple Pie " <> "" /\
  is_na_text default_na_values "  Apple Pie " = false.
Proof.
  apply (X5_matched_recipe_comes_from_table Z Z_scores Z Demo.encode Demo.cos_sim
           Demo.post Demo.render_results {| show_menu := false |} false
           "a long long query" Demo.recipes_csv "  Apple Pie ").
  reflexivity.
Defined.

(** X6.  When the call to the gateway raises instead of answering, the
    exception does not leave the page: the run shows one error message
    with the text of the exception, has sent the request once, and (in
    [app3.py]) ends without an uncaught exception and with the catalog
    it loaded. *)
Theorem X6_gateway_exception_is_caught :
  forall (Sc : Type) (O : ScoreOrder Sc) (Vec : Type)
         (encode : string -> Vec) (cos_sim : Vec -> Vec -> Sc)
         (post : request -> reply)
         (render_results : string -> string -> list widget)
         (s0 : Session) (menu_pressed : bool) (user_query : string)
         (src : source) (recipes : list string) (picked : nat)
         (name : string) (e : string),
    post (predict_request name) = Failed e ->
    (matched_recipe (run_app3 encode cos_sim post render_results
                       s0 menu_pressed user_query src) = Some name ->
     let p := run_app3 encode cos_sim post render_results
                s0 menu_pressed user_query src in
     shown p = (menu_panel (session p)
                ++ [Success ("✅ Matched recipe: **" ++ name ++ "**");
                    Error ("🚨 Something went wrong: " ++ e)])%list /\
     sent p = [predict_request name] /\
     uncaught p = None /\
     recipe_names p = load_recipes src) /\
    (nth_error recipes picked = Some name -> name <> "" ->
     run_app2 post render_results (Listing 200 recipes) picked =
       ([Error ("🚨 Something went wrong: " ++ e)], [predict_request name])).
Proof.
  intros Sc O Vec encode cos_sim post render s0 pressed q src recipes picked
         name e Hpost.
  assert (Hpred : predict post render name =
                  ([Error ("🚨 Something went wrong: " ++ e)],
                   [predict_request name])).
  { unfold predict. fold (predict_request name). now rewrite Hpost. }
  split.
  - intros Hm p.
    destruct (run_app3_matched_inv encode cos_sim post render s0 pressed q src
                name Hm) as [Hq Hres].
    destruct (run_app3_matched encode cos_sim post render s0 pressed q src
                name Hq Hres) as (_ & Hu & Hsent & Hshown).
    destruct (run_app3_catalog encode cos_sim post render s0 pressed q src)
      as [Hn _].
    fold p in Hu, Hsent, Hshown, Hn.
    rewrite Hpred in Hsent, Hshown. simpl in Hsent, Hshown.
    repeat split; assumption.
  - intros Hpick Hname.
    rewrite (run_app2_picked post render recipes picked name Hpick Hname).
    exact Hpred.
Qed.

Lemma X6_gateway_exception_is_caught_witness :
  shown (run_app3 Demo.encode Demo.cos_sim Demo.offline Demo.render_results
           {| show_menu := false |} false "soup" Demo.recipes_csv)
    = [Success "✅ Matched recipe: **Soup**";
       Error "🚨 Something went wrong: connection refused"] /\
  run_app2 Demo.offline Demo.render_results (Listing 200 ["Soup"]) 0
    = ([Error "🚨 Something went wrong: connection refused"],
       [predict_request "Soup"]).
Proof.
  destruct (X6_gateway_exception_is_caught Z Z_scores Z
              Demo.encode Demo.cos_sim Demo.offline Demo.render_results
              {| show_menu := false |} false "soup" Demo.recipes_csv
              ["Soup"] 0 "Soup" "connection refused" eq_refl)
    as [H3 H2].
  split.
  - apply H3. reflexivity.
  - apply H2; [reflexivity | discriminate].
Defined.

(** ** [app2.py]: the listing and the select box *)

(** X7.  When the recipe listing cannot be had, because the endpoint
    answers with a status other than 200 or the call raises, the select
    box has no options: whatever position is picked, no request is sent,
    and the page shows the error about the listing followed by the hint
    to choose a recipe. *)
Theorem X7_app2_failed_listing_sends_nothing :
  forall (post : request -> reply)
         (render_results : string -> string -> list widget)
         (names : listing) (picked : nat),
    (forall recipes, names <> Listing 200 recipes) ->
    snd (run_app2 post render_results names picked) = [] /\
    exists about_listing,
      fst (run_app2 post render_results names picked) =
        [Error about_listing;
         Info "🌿 Enter a recipe name above to begin analysis."] /\
      (about_listing = "Failed to fetch recipe names from API." \/
       exists e, names = Unreachable e /\
                 about_listing = "Could not connect to API: " ++ e).
Proof.
  intros post render names picked Hfailed. unfold run_app2.
  destruct names as [code recipes | e].
  - destruct (Z.eqb_spec code 200) as [-> | Hcode].
    + destruct (Hfailed recipes). reflexivity.
    + destruct picked; simpl; (split; [reflexivity|]); eexists;
        (split; [reflexivity | now left]).
  - destruct picked; simpl; (split; [reflexivity|]); eexists;
      (split; [reflexivity | right; eauto]).
Qed.

Lemma X7_app2_failed_listing_sends_nothing_witness :
  snd (run_app2 Demo.post Demo.render_results (Listing 503 ["Soup"]) 0) = [] /\
  exists about_listing,
    fst (run_app2 Demo.post Demo.render_results (Listing 503 ["Soup"]) 0) =
      [Error about_listing;
       Info "🌿 Enter a recipe name above to begin analysis."] /\
    (about_listing = "Failed to fetch recipe names from API." \/
     exists e, Listing 503 ["Soup"] = Unreachable e /\
               about_listing = "Could not connect to API: " ++ e).
Proof.
  apply (X7_app2_failed_listing_sends_nothing Demo.post Demo.render_results
           (Listing 503 ["Soup"]) 0).
  intros recipes. discriminate.
Defined.

(** X8.  [app2.py] calls the gateway at most once per run and only for
    a recipe the listing offered: a request goes out exactly when the
    listing came with status 200 and holds a non-empty name at the
    picked position, and it is the request for that name. *)
Theorem X8_app2_requests_only_listed_recipes :
  forall (post : request -> reply)
         (render_results : string -> string -> list widget)
         (names : listing) (picked : nat),
    (snd (run_app2 post render_results names picked) = [] \/
     exists recipes name,
       names = Listing 200 recipes /\
       nth_error recipes picked = Some name /\ name <> "" /\
       snd (run_app2 post render_results names picked) = [predict_request name]) /\
    (forall recipes name,
       names = Listing 200 recipes ->
       nth_error recipes picked = Some name -> name <> "" ->
       snd (run_app2 post render_results names picked) = [predict_request name]).
Proof.
  intros post render names picked. split.
  - destruct names as [code recipes | e].
    + destruct (Z.eqb_spec code 200) as [-> | Hcode].
      * destruct (nth_error recipes picked) as [name|] eqn:Hpick.
        -- destruct name as [|c name'] eqn:Hname.
           ++ left. unfold run_app2. simpl. rewrite Hpick. reflexivity.
           ++ right. exists recipes, name. subst name.
              rewrite (run_app2_picked post render recipes picked _ Hpick)
                by discriminate.
              rewrite predict_sends_once.
              repeat split; trivial; discriminate.
        -- left. unfold run_app2. simpl. rewrite Hpick. reflexivity.
      * left. unfold run_app2. apply Z.eqb_neq in Hcode. rewrite Hcode.
        destruct picked; reflexivity.
    + left. unfold run_app2. destruct picked; reflexivity.
  - intros recipes name -> Hpick Hname.
    rewrite (run_app2_picked post render recipes picked name Hpick Hname).
    apply predict_sends_once.
Qed.

(** ** The menu of [app3.py] *)

(** X9.  The menu button flips [show_menu] and nothing else does: a run
    without a press leaves the session as it was, two runs with a press
    bring it back, and a fresh session starts with the menu closed.  The
    page is the page of the same run with the menu closed, with the four
    lines of the menu panel put in front exactly when [show_menu] is on
    after the press; the page with the menu closed does not start with
    the panel. *)
Theorem X9_menu_button_toggles_panel :
  forall (Sc : Type) (O : ScoreOrder Sc) (Vec : Type)
         (encode : string -> Vec) (cos_sim : Vec -> Vec -> Sc)
         (post post' : request -> reply)
         (render_results render_results' : string -> string -> list widget)
         (state : option Session) (menu_pressed : bool)
         (user_query user_query' : string) (src src' : source),
    let s0 := init_session state in
    let p := run_app3 encode cos_sim post render_results
               s0 menu_pressed user_query src in
    let again := run_app3 encode cos_sim post' render_results'
                   (session p) menu_pressed user_query' src' in
    let closed := run_app3 encode cos_sim post render_results
                    {| show_menu := false |} false user_query src in
    (state = None -> show_menu (session p) = menu_pressed) /\
    (menu_pressed = false -> session p = s0) /\
    show_menu (session again) = show_menu s0 /\
    shown p = ((if show_menu (session p)
                then [Markdown "## 🧭 Navigation Menu";
                      Markdown "- Ingredient Matching";
                      Markdown "- Nutrition Details";
                      Markdown "- Export Options"]
                else []) ++ shown closed)%list /\
    hd_error (shown closed) <> Some (Markdown "## 🧭 Navigation Menu").
Proof.
  intros Sc O Vec encode cos_sim post post' render render' state pressed
         q q' src src' s0 p again closed.
  assert (Hs : session p = if pressed then {| show_menu := negb (show_menu s0) |}
                           else s0) by apply run_app3_session.
  assert (Hs' : session again =
                if pressed then {| show_menu := negb (show_menu (session p)) |}
                else session p) by apply run_app3_session.
  split; [|split; [|split; [|split]]].
  - intros ->. rewrite Hs. destruct pressed; reflexivity.
  - intros ->. exact Hs.
  - rewrite Hs', Hs. destruct pressed; simpl; [apply negb_involutive | reflexivity].
  - rewrite Hs. subst p closed. clear Hs Hs' again. clearbody s0.
    destruct s0 as [menu]. unfold run_app3.
    destruct (truthy q).
    + destruct (resolve encode cos_sim q _ _) as [name|e].
      * destruct (predict post render name) as [ws reqs].
        destruct pressed, menu; reflexivity.
      * destruct pressed, menu; reflexivity.
    + destruct pressed, menu; reflexivity.
  - subst closed. unfold run_app3.
    destruct (truthy q); [|discriminate].
    destruct (resolve encode cos_sim q _ _) as [name|e]; [|discriminate].
    destruct (predict post render name) as [ws reqs]. discriminate.
Qed.

Lemma X9_menu_button_toggles_panel_witness :
  show_menu (session (run_app3 Demo.encode Demo.cos_sim Demo.post
                        Demo.render_results (init_session None) true "soup"
                        Demo.recipes_csv)) = true.
Proof.
  apply (proj1 (X9_menu_button_toggles_panel Z Z_scores Z Demo.encode Demo.cos_sim
                  Demo.post Demo.post Demo.render_results Demo.render_results
                  None true "soup" "soup" Demo.recipes_csv Demo.recipes_csv)).
  reflexivity.
Defined.

Lemma X8_app2_requests_only_listed_recipes_witness :
  snd (run_app2 Demo.post Demo.render_results
         (Listing 200 ["Soup"; "  Apple Pie "]) 1)
    = [predict_request "  Apple Pie "].
Proof.
  apply (proj2 (X8_app2_requests_only_listed_recipes Demo.post Demo.render_results
                  (Listing 200 ["Soup"; "  Apple Pie "]) 1)
           ["Soup"; "  Apple Pie "] "  Apple Pie ").
  - reflexivity.
  - reflexivity.
  - discriminate.
Defined.

(** ** Which names give the same request *)

Lemma append_assoc_str (a b c : string) : (a ++ b) ++ c = a ++ (b ++ c).
Proof. induction a as [|x a IH]; simpl; [reflexivity | now rewrite IH]. Qed.

Lemma append_empty_r (a : string) : a ++ "" = a.
Proof. induction a as [|x a IH]; simpl; [reflexivity | now rewrite IH]. Qed.

Lemma all_space_app (a b : string) :
  all_space (a ++ b) = all_space a && all_space b.
Proof.
  induction a as [|x a IH]; simpl; [reflexivity|].
  now rewrite IH, andb_assoc.
Qed.

Lemma strip_trimmed (s : string) :
  starts_with_space (strip s) = false /\ ends_with_space (strip s) = false.
Proof.
  unfold strip. split.
  - apply rstrip_keeps_head, lstrip_no_leading_space.
  - apply rstrip_no_trailing_space.
Qed.

(** Whitespace put around a text does not show after [strip]. *)
Lemma strip_padding (l s r : string) :
  all_space l = true -> all_space r = true ->
  strip (l ++ s ++ r) = strip s.
Proof.
  intros Hl Hr.
  destruct (strip_split s) as (l' & r' & Hs & Hl' & Hr').
  destruct (strip_trimmed s) as [Hstart Hend].
  rewrite Hs at 1.
  replace (l ++ (l' ++ strip s ++ r') ++ r)
    with ((l ++ l') ++ strip s ++ (r' ++ r))
    by (now rewrite !append_assoc_str).
  apply strip_padded; trivial; rewrite all_space_app;
    [rewrite Hl, Hl' | rewrite Hr', Hr]; reflexivity.
Qed.

Lemma isspace_lower_char (c : ascii) : isspace (lower_char c) = isspace c.
Proof. destruct c as [[] [] [] [] [] [] [] []]; reflexivity. Qed.

Lemma lower_char_twice (c : ascii) : lower_char (lower_char c) = lower_char c.
Proof. destruct c as [[] [] [] [] [] [] [] []]; reflexivity. Qed.

Lemma lower_twice (s : string) : lower (lower s) = lower s.
Proof.
  induction s as [|c t IH]; simpl; [reflexivity|].
  now rewrite lower_char_twice, IH.
Qed.

Lemma lstrip_lower (s : string) : lstrip (lower s) = lower (lstrip s).
Proof.
  induction s as [|c t IH]; simpl; [reflexivity|].
  rewrite isspace_lower_char. destruct (isspace c); [exact IH | reflexivity].
Qed.

Lemma rstrip_lower (s : string) : rstrip (lower s) = lower (rstrip s).
Proof.
  induction s as [|c t IH]; simpl; [reflexivity|].
  rewrite IH, isspace_lower_char.
  destruct (rstrip t) as [|c' t']; simpl; [|reflexivity].
  destruct (isspace c); reflexivity.
Qed.

Lemma strip_lower (s : string) : strip (lower s) = lower (strip s).
Proof. unfold strip. now rewrite lstrip_lower, rstrip_lower. Qed.

(** X10.  For names of ASCII text: two names that are the same up to
    the case of their letters, one of them with whitespace put around
    it, give the same request.  The gateway cannot tell them apart. *)
Theorem X10_padding_and_case_do_not_reach_gateway :
  forall (a b l r : string),
    is_ascii (l ++ a ++ r) = true -> is_ascii b = true ->
    blank l = true -> blank r = true ->
    small_letters a = small_letters b ->
    predict_request (l ++ a ++ r) = predict_request b.
Proof.
  intros a b l r _ _ Hl Hr Hab. unfold predict_request. f_equal.
  rewrite blank_all_space in Hl, Hr. rewrite !small_letters_lower in Hab.
  rewrite (strip_padding l a r Hl Hr).
  now rewrite <- !strip_lower, Hab.
Qed.

Lemma X10_padding_and_case_do_not_reach_gateway_witness :
  predict_request ("  " ++ "Apple Pie" ++ " ") = predict_request "apple PIE".
Proof.
  apply (X10_padding_and_case_do_not_reach_gateway "Apple Pie" "apple PIE" "  " " ");
    reflexivity.
Defined.

(** X11.  For a name of ASCII text, what is sent is in normal form: it
    has no whitespace at either end and no capital letter, stripping or
    lowercasing it again changes nothing, so the request for the name
    that was sent is the same request; and the order of the two steps
    does not matter. *)
Theorem X11_request_name_is_normal_form :
  forall name : string,
    is_ascii name = true ->
    let sent_name := recipe_name (predict_request name) in
    (forall c, first_char sent_name = Some c -> is_whitespace c = false) /\
    (forall c, last_char sent_name = Some c -> is_whitespace c = false) /\
    small_letters sent_name = sent_name /\
    predict_request sent_name = predict_request name /\
    strip sent_name = sent_name /\
    lower sent_name = sent_name /\
    lower (strip name) = strip (lower name).
Proof.
  intros name _ sent_name. unfold sent_name, predict_request. simpl.
  assert (Hstrip : strip (lower (strip name)) = lower (strip name)).
  { rewrite strip_lower. f_equal.
    destruct (strip_trimmed name) as [Hstart Hend].
    rewrite <- (strip_padded "" (strip name) "") at 2 by trivial.
    simpl. now rewrite append_empty_r. }
  split; [|split; [|split; [|split; [|split; [|split]]]]].
  - apply first_char_not_space. rewrite <- Hstrip. apply strip_trimmed.
  - apply last_char_not_space. rewrite <- Hstrip. apply strip_trimmed.
  - rewrite small_letters_lower. apply lower_twice.
  - now rewrite Hstrip, lower_twice.
  - exact Hstrip.
  - apply lower_twice.
  - symmetry. apply strip_lower.
Qed.

Lemma X11_request_name_is_normal_form_witness :
  predict_request (recipe_name (predict_request "  Apple Pie "))
    = predict_request "  Apple Pie ".
Proof.
  apply (X11_request_name_is_normal_form "  Apple Pie " eq_refl).
Defined.

(** ** Reading the error message back *)

Lemma colon_free_digits (d : Decimal.uint) :
  colon_free (NilEmpty.string_of_uint d) = true.
Proof. induction d; simpl; trivial. Qed.

Lemma colon_free_str_of_int (n : Z) : colon_free (str_of_int n) = true.
Proof.
  unfold str_of_int.
  destruct (Z.to_int n) as [d|d]; simpl;
    destruct d; simpl; trivial; apply colon_free_digits.
Qed.

Lemma int_of_str_of_int (n : Z) : int_of_str (str_of_int n) = Some n.
Proof.
  unfold int_of_str, str_of_int. rewrite NilZero.isi.
  - simpl. now rewrite DecimalZ.of_to.
  - destruct n; simpl; try discriminate.
    intros [= Hp]. now apply DecimalPos.Unsigned.to_uint_nonnil in Hp.
  - destruct n; simpl; try discriminate.
    intros [= Hp]. now apply DecimalPos.Unsigned.to_uint_nonnil in Hp.
Qed.

Lemma append_cancel_l (p a b : string) : p ++ a = p ++ b -> a = b.
Proof.
  induction p as [|c p IH]; simpl; [trivial|]. intros [= Hab]. auto.
Qed.

(** Two texts cut at their first colon agree part by part. *)
Lemma split_at_first_colon (a b x y : string) :
  colon_free a = true -> colon_free b = true ->
  a ++ String ":" x = b ++ String ":" y ->
  a = b /\ x = y.
Proof.
  revert b. induction a as [|c a IH]; intros [|c' b]; simpl; intros Ha Hb Heq.
  - injection Heq as ->. auto.
  - injection Heq as <- _. discriminate.
  - injection Heq as -> _. discriminate.
  - apply andb_prop in Ha as [_ Ha]. apply andb_prop in Hb as [_ Hb].
    injection Heq as -> Heq. destruct (IH b Ha Hb Heq) as [-> ->]. auto.
Qed.

Lemma api_error_text_inj (code code' : Z) (text text' : string) :
  api_error_text code text = api_error_text code' text' ->
  code = code' /\ text = text'.
Proof.
  unfold api_error_text. intros Heq. apply append_cancel_l in Heq.
  change (": " ++ text) with (String ":" (" " ++ text)) in Heq.
  change (": " ++ text') with (String ":" (" " ++ text')) in Heq.
  apply split_at_first_colon in Heq as [Hcode Htext];
    try apply colon_free_str_of_int.
  split.
  - assert (Hback : int_of_str (str_of_int code) = int_of_str (str_of_int code'))
      by now rewrite Hcode.
    rewrite !int_of_str_of_int in Hback. now injection Hback.
  - now injection Htext.
Qed.

(** X12.  The message shown for a failed answer keeps the status and
    the body apart: the number in it reads back as the status received,
    and two failed answers that differ in status or in body are shown
    with different messages. *)
Theorem X12_api_error_message_determines_status_and_body :
  forall (post : request -> reply)
         (render_results : string -> string -> list widget)
         (name name' : string) (status_code status_code' : Z)
         (text text' : string),
    post (predict_request name) = Response status_code text ->
    post (predict_request name') = Response status_code' text' ->
    status_code <> 200%Z -> status_code' <> 200%Z ->
    fst (predict post render_results name) =
      [Error ("🚫 API error " ++ str_of_int status_code ++ ": " ++ text)] /\
    int_of_str (str_of_int status_code) = Some status_code /\
    (fst (predict post render_results name)
       = fst (predict post render_results name') ->
     status_code = status_code' /\ text = text').
Proof.
  intros post render name name' code code' text text' Hpost Hpost' Hcode Hcode'.
  rewrite (predict_not_ok post render name code text Hpost Hcode).
  rewrite (predict_not_ok post render name' code' text' Hpost' Hcode').
  cbn [fst]. split; [reflexivity|]. split; [apply int_of_str_of_int|].
  intros Heq. apply api_error_text_inj.
  apply (f_equal (fun ws => match ws with
                            | Error msg :: _ => msg
                            | _ => ""
                            end)) in Heq.
  exact Heq.
Qed.

Lemma X12_api_error_message_determines_status_and_body_witness :
  fst (predict Demo.post Demo.render_results "Stew") =
    [Error ("🚫 API error " ++ str_of_int 404 ++ ": " ++ "Recipe not found")] /\
  int_of_str (str_of_int 404) = Some 404%Z /\
  (fst (predict Demo.post Demo.render_results "Stew")
     = fst (predict Demo.post Demo.render_results "Apple Pie") ->
   404%Z = 404%Z /\ "Recipe not found" = "Recipe not found").
Proof.
  apply (X12_api_error_message_determines_status_and_body
           Demo.post Demo.render_results "Stew" "Apple Pie" 404 404
           "Recipe not found" "Recipe not found");
    try reflexivity; discriminate.
Defined.

(** ** More on the catalog loader *)

Lemma present_names_app (a b : source) :
  present_names (a ++ b)%list = (present_names a ++ present_names b)%list.
Proof.
  induction a as [|[s|] a IH]; simpl; [reflexivity | now rewrite IH | exact IH].
Qed.

Lemma present_names_all (names : list string) :
  present_names (map Some names) = names.
Proof.
  induction names as [|s t IH]; simpl; [reflexivity | now rewrite IH].
Qed.

Lemma filter_twice {A : Type} (f : A -> bool) (l : list A) :
  filter f (filter f l) = filter f l.
Proof.
  induction l as [|x t IH]; simpl; [reflexivity|].
  destruct (f x) eqn:Hx; simpl; [rewrite Hx, IH | rewrite IH]; reflexivity.
Qed.

Lemma load_recipes_app (a b : source) :
  load_recipes (a ++ b)%list = (load_recipes a ++ load_recipes b)%list.
Proof. rewrite !load_recipes_filter, present_names_app. apply filter_app. Qed.

Lemma load_recipes_reload (src : source) :
  load_recipes (map Some (load_recipes src)) = load_recipes src.
Proof.
  rewrite (load_recipes_filter (map Some _)), present_names_all.
  rewrite load_recipes_filter. apply filter_twice.
Qed.

Lemma text_column_app (parses_as_number : string -> bool) (a b : source) :
  text_column parses_as_number a = true ->
  text_column parses_as_number b = true ->
  text_column parses_as_number (a ++ b)%list = true.
Proof.
  unfold text_column. rewrite load_recipes_app.
  destruct (load_recipes a) as [|x ka]; [now rewrite app_nil_l|].
  destruct (load_recipes b) as [|y kb].
  - now rewrite app_nil_r.
  - intros Ha Hb. change ((x :: ka) ++ y :: kb)%list
      with (x :: (ka ++ y :: kb))%list.
    cbv iota beta.
    change (x :: (ka ++ y :: kb))%list with ((x :: ka) ++ y :: kb)%list.
    rewrite forallb_app. apply negb_true_iff in Ha. now rewrite Ha.
Qed.

(** X13.  For tables whose "name" column the reader keeps as text,
    loading goes row by row: the catalog of two such tables put one
    after the other is the two catalogs one after the other.  And the
    catalog of such a table, written out as a table of names, loads as
    itself. *)
Theorem X13_loader_concatenates_and_reloads :
  forall (Num : Type) (parses_as_number : string -> bool)
         (numeric_names : source -> list Num) (a b : source),
    text_column parses_as_number a = true ->
    text_column parses_as_number b = true ->
    catalog_values Num parses_as_number numeric_names (a ++ b)%list
      = (catalog_values Num parses_as_number numeric_names a
         ++ catalog_values Num parses_as_number numeric_names b)%list /\
    catalog_values Num parses_as_number numeric_names
        (map Some (load_recipes a))
      = catalog_values Num parses_as_number numeric_names a.
Proof.
  intros Num parses numeric_names a b Ha Hb.
  rewrite (catalog_values_text parses numeric_names _ (text_column_app parses a b Ha Hb)).
  rewrite !(catalog_values_text parses numeric_names _ Ha).
  rewrite (catalog_values_text parses numeric_names _ Hb).
  split; [now rewrite load_recipes_app, map_app|].
  unfold catalog_values, text_column. rewrite load_recipes_reload.
  fold (text_column parses a). now rewrite Ha.
Qed.

Lemma X13_loader_concatenates_and_reloads_witness :
  catalog_values Z DemoReader.parses_as_number DemoReader.numeric_names
    ([Some "007"; Some "Soup"] ++ [Some "NA"; Some "Stew"])%list
  = (catalog_values Z DemoReader.parses_as_number DemoReader.numeric_names
       [Some "007"; Some "Soup"]
     ++ catalog_values Z DemoReader.parses_as_number DemoReader.numeric_names
          [Some "NA"; Some "Stew"])%list.
Proof.
  apply (X13_loader_concatenates_and_reloads Z DemoReader.parses_as_number
           DemoReader.numeric_names [Some "007"; Some "Soup"]
           [Some "NA"; Some "Stew"]); reflexivity.
Defined.

Lemma count_occ_load_recipes (src : source) (s : string) :
  count_occ string_dec (load_recipes src) s =
    (if is_na_text default_na_values s then 0
     else count_occ string_dec (present_names src) s).
Proof.
  rewrite load_recipes_filter.
  induction (present_names src) as [|x t IH];
    [cbn [filter count_occ];
     destruct (is_na_text default_na_values s); reflexivity|].
  cbn [filter]. destruct (is_na_text default_na_values x) eqn:Hx; cbn [negb].
  - rewrite IH. cbn [count_occ]. destruct (string_dec x s) as [->|Hneq].
    + now rewrite Hx.
    + reflexivity.
  - cbn [count_occ]. destruct (string_dec x s) as [->|Hneq].
    + rewrite IH, Hx. reflexivity.
    + exact IH.
Qed.

Lemma load_recipes_length (src : source) :
  List.length (load_recipes src) <= List.length src.
Proof.
  unfold load_recipes, read_csv.
  induction src as [|[x|] t IH]; cbn [map parse_cell dropna List.length].
  - lia.
  - destruct (is_na_text default_na_values x); cbn [dropna List.length]; lia.
  - lia.
Qed.

(** X14.  For a table whose "name" column the reader keeps as text, the
    loader keeps duplicates and adds nothing: the catalog is the texts
    of the loader, a name that is not a marker of a missing value occurs
    in it as many times as rows of the table carry it, a marker does not
    occur at all, and the catalog has at most as many entries as the
    table has rows. *)
Theorem X14_loader_keeps_multiplicity :
  forall (Num : Type) (parses_as_number : string -> bool)
         (numeric_names : source -> list Num) (src : source) (s : string),
    text_column parses_as_number src = true ->
    catalog_values Num parses_as_number numeric_names src
      = map Text (load_recipes src) /\
    count_occ string_dec (load_recipes src) s =
      (if is_na_text default_na_values s then 0
       else count_occ string_dec (present_names src) s) /\
    List.length (catalog_values Num parses_as_number numeric_names src)
      <= List.length src.
Proof.
  intros Num parses numeric_names src s Htext.
  rewrite (catalog_values_text parses numeric_names src Htext).
  split; [reflexivity|]. split; [apply count_occ_load_recipes|].
  rewrite List.length_map. apply load_recipes_length.
Qed.

Lemma X14_loader_keeps_multiplicity_witness :
  count_occ string_dec
    (load_recipes [Some "Soup"; Some "NA"; Some "Soup"; None]) "Soup"
  = (if is_na_text default_na_values "Soup" then 0
     else count_occ string_dec
            (present_names [Some "Soup"; Some "NA"; Some "Soup"; None]) "Soup").
Proof.
  apply (X14_loader_keeps_multiplicity Z DemoReader.parses_as_number
           DemoReader.numeric_names [Some "Soup"; Some "NA"; Some "Soup"; None]
           "Soup").
  reflexivity.
Defined.

(** ** Runs with an encoder that can fail *)

Section ScriptFacts.
Context {Sc : Type} `{ScoreOrder Sc} {Vec : Type}.
Variable cos_sim : Vec -> Vec -> Sc.
Variable post : request -> reply.
Variable render_results : string -> string -> list widget.
Variable load_model : Py.result (string -> Py.result Vec).
Variable no_text_error : option Py.exn.

Lemma encode_each_length (model : string -> Py.result Vec) (texts : list string) :
  forall rows, encode_each model texts = Ok rows ->
               List.length rows = List.length texts.
Proof.
  induction texts as [|t rest IH]; simpl; intros rows Hrows.
  - now injection Hrows as <-.
  - destruct (model t) as [row|e]; simpl in Hrows; [|discriminate].
    destruct (encode_each model rest) as [rows'|e]; simpl in Hrows; [|discriminate].
    injection Hrows as <-. simpl. now rewrite (IH rows').
Qed.

Lemma encode_list_length (model : string -> Py.result Vec) (texts : list string)
    (index : list Vec) :
  encode_list no_text_error model texts = Ok index ->
  List.length index = List.length texts.
Proof.
  unfold encode_list. destruct texts as [|t rest].
  - destruct no_text_error; [discriminate|]. apply encode_each_length.
  - apply encode_each_length.
Qed.

(** With a catalog of at least one name and as many rows, resolution of
    an encoded query ends on the name at a position that holds a maximum
    of the scores. *)
Lemma resolve_embedding_spec (qv : Vec) (names : list string) (index : list Vec) :
  names <> [] -> List.length index = List.length names ->
  exists best name,
    resolve_embedding cos_sim qv names index = Ok name /\
    nth_error names best = Some name /\
    attains_max (map (cos_sim qv) index) best.
Proof.
  intros Hne Hlen.
  destruct (resolve_spec (fun _ => qv) cos_sim "" names index Hne Hlen)
    as (best & name & s & Hres & Hname & Hs & Hmax & _).
  exists best, name. repeat split; trivial. exists s. auto.
Qed.

Lemma resolve_embedding_no_names (qv : Vec) (index : list Vec) :
  List.length index = 0 ->
  resolve_embedding cos_sim qv [] index = Raise "RuntimeError".
Proof. destruct index; [reflexivity | discriminate]. Qed.

(** How a run goes, read along the script. *)
Lemma script_app3_cases (caches : Caches Vec) (s0 : Session) (pressed : bool)
    (q : string) (src : source) :
  let p := fst (script_app3 cos_sim post render_results load_model no_text_error
                  caches s0 pressed q src) in
  let names := catalog_of caches src in
  recipe_names p = names /\
  match model_of load_model caches with
  | Raise e => uncaught p = Some e /\ sent p = [] /\ matched_recipe p = None
  | Ok model =>
      match encode_list no_text_error model names with
      | Raise e => uncaught p = Some e /\ sent p = [] /\ matched_recipe p = None
      | Ok index =>
          if truthy q then
            match model q with
            | Raise e =>
                uncaught p = Some e /\ sent p = [] /\ matched_recipe p = None
            | Ok qv =>
                (names = [] /\ uncaught p = Some "RuntimeError" /\
                 sent p = [] /\ matched_recipe p = None)
                \/
                (names <> [] /\
                 exists best name,
                   nth_error names best = Some name /\
                   attains_max (map (cos_sim qv) index) best /\
                   matched_recipe p = Some name /\
                   sent p = [predict_request name] /\
                   uncaught p = None /\
                   In (Success ("✅ Matched recipe: **" ++ name ++ "**"))
                      (shown p))
            end
          else uncaught p = None /\ sent p = [] /\ matched_recipe p = None
      end
  end.
Proof.
  unfold script_app3. set (names := catalog_of caches src).
  destruct (model_of load_model caches) as [model|e];
    [|cbn; repeat split; reflexivity].
  destruct (encode_list no_text_error model names) as [index|e] eqn:Hindex;
    [|cbn; repeat split; reflexivity].
  pose proof (encode_list_length model names index Hindex) as Hlen.
  destruct (truthy q); [|cbn; repeat split; reflexivity].
  destruct (model q) as [qv|e]; [|cbn; repeat split; reflexivity].
  destruct names as [|n names'] eqn:Hnames.
  - rewrite (resolve_embedding_no_names qv index Hlen). cbn.
    split; [reflexivity|]. left. repeat split; reflexivity.
  - destruct (resolve_embedding_spec qv (n :: names') index)
      as (best & name & Hres & Hname & Hmax); [discriminate | assumption |].
    rewrite Hres.
    pose proof (predict_sends_once post render_results name) as Hsent.
    destruct (predict post render_results name) as [ws reqs]. cbn in Hsent |- *.
    split; [reflexivity|]. right. split; [discriminate|].
    exists best, name. repeat split; trivial.
    apply in_or_app. right. left. reflexivity.
Qed.

(** A model that encodes every text, in a process with empty caches,
    gives the run of [run_app3]. *)
Lemma encode_each_total (encode : string -> Vec) (model : string -> Py.result Vec)
    (texts : list string) :
  (forall text, model text = Ok (encode text)) ->
  encode_each model texts = Ok (map encode texts).
Proof.
  intros Hmodel. induction texts as [|t rest IH]; simpl; [reflexivity|].
  now rewrite Hmodel, IH.
Qed.

Lemma script_app3_run_app3 (encode : string -> Vec)
    (model : string -> Py.result Vec) (s0 : Session) (pressed : bool)
    (q : string) (src : source) :
  load_model = Ok model ->
  (forall text, model text = Ok (encode text)) ->
  no_text_error = None ->
  fst (script_app3 cos_sim post render_results load_model no_text_error
         {| cached_recipes := None; cached_model := None |} s0 pressed q src)
  = run_app3 encode cos_sim post render_results s0 pressed q src.
Proof.
  intros Hload Hmodel Hnone. unfold script_app3, run_app3, model_of, catalog_of.
  cbn [cached_recipes cached_model]. rewrite Hload.
  unfold encode_list. rewrite Hnone.
  replace (match tolist (load_recipes src) with
           | [] | _ => encode_each model (tolist (load_recipes src))
           end) with (encode_each model (tolist (load_recipes src)))
    by (destruct (tolist (load_recipes src)); reflexivity).
  rewrite (encode_each_total encode model _ Hmodel).
  fold (encode_many encode (tolist (load_recipes src))).
  destruct (truthy q); [|reflexivity].
  rewrite Hmodel.
  change (resolve_embedding cos_sim (encode q) (tolist (load_recipes src))
            (encode_many encode (tolist (load_recipes src))))
    with (resolve encode cos_sim q (tolist (load_recipes src))
            (encode_many encode (tolist (load_recipes src)))).
  destruct (resolve encode cos_sim q _ _) as [matched|e]; [|reflexivity].
  destruct (predict post render_results matched). reflexivity.
Qed.

End ScriptFacts.

(** C10.  For every non-empty query and every catalog with at least one
    entry, when the model is there and encodes the catalog and the
    query, a run matches the catalog entry at a position that holds the
    maximum score and shows it as a match, whatever the scores are: no
    exception, no threshold, no outcome without a match. *)
Theorem C10_resolution_always_matches :
  forall (Sc : Type) (O : ScoreOrder Sc) (Vec : Type)
         (cos_sim : Vec -> Vec -> Sc)
         (post : request -> reply)
         (render_results : string -> string -> list widget)
         (load_model : Py.result (string -> Py.result Vec))
         (no_text_error : option Py.exn)
         (caches : Caches Vec) (s0 : Session) (menu_pressed : bool)
         (user_query : string) (src : source)
         (model : string -> Py.result Vec) (index : list Vec)
         (query_embedding : Vec),
    user_query <> "" ->
    catalog_of caches src <> [] ->
    model_of load_model caches = Ok model ->
    encode_list no_text_error model (catalog_of caches src) = Ok index ->
    model user_query = Ok query_embedding ->
    let p := fst (script_app3 cos_sim post render_results load_model
                    no_text_error caches s0 menu_pressed user_query src) in
    exists best name,
      matched_recipe p = Some name /\
      recipe_names p = catalog_of caches src /\
      nth_error (recipe_names p) best = Some name /\
      attains_max (map (cos_sim query_embedding) index) best /\
      uncaught p = None /\
      In (Success ("✅ Matched recipe: **" ++ name ++ "**")) (shown p).
Proof.
  intros Sc O Vec cos_sim post render load_model no_text caches s0 pressed q src
         model index qv Hq Hne Hmodel Hindex Hqv p.
  destruct (script_app3_cases cos_sim post render load_model no_text
              caches s0 pressed q src) as [Hnames Hcases].
  fold p in Hnames, Hcases.
  rewrite Hmodel, Hindex, (truthy_nonempty q Hq), Hqv in Hcases.
  destruct Hcases as [[Hempty _] | (_ & best & name & Hname & Hmax & Hm & _ & Hu & Hshown)];
    [contradiction|].
  exists best, name. rewrite Hnames. repeat split; assumption.
Qed.

Lemma C10_resolution_always_matches_witness :
  exists best name,
    matched_recipe
      (fst (script_app3 Demo.cos_sim Demo.offline Demo.render_results
              (Ok DemoModel.encode) None DemoModel.cold
              {| show_menu := true |} true "anything at all"
              Demo.recipes_csv)) = Some name /\
    nth_error ["Soup"; "  Apple Pie "; "Stew"] best = Some name /\
    attains_max (map (Demo.cos_sim 15) [4; 12; 4]%Z) best.
Proof.
  destruct (C10_resolution_always_matches Z Z_scores Z Demo.cos_sim Demo.offline
              Demo.render_results (Ok DemoModel.encode) None DemoModel.cold
              {| show_menu := true |} true "anything at all" Demo.recipes_csv
              DemoModel.encode [4; 12; 4]%Z 15%Z)
    as (best & name & Hm & Hnames & Hname & Hmax & _);
    try reflexivity; try discriminate.
  exists best, name. rewrite Hnames in Hname. auto.
Defined.

(** X4.  A run of [app3.py] calls the gateway at most once, and then
    for a name of the catalog.  It calls it exactly when the query is
    not empty, the catalog has an entry, and the model is there and
    encodes the catalog and the query. *)
Theorem X4_app3_calls_gateway_iff_query_and_catalog :
  forall (Sc : Type) (O : ScoreOrder Sc) (Vec : Type)
         (cos_sim : Vec -> Vec -> Sc)
         (post : request -> reply)
         (render_results : string -> string -> list widget)
         (load_model : Py.result (string -> Py.result Vec))
         (no_text_error : option Py.exn)
         (caches : Caches Vec) (s0 : Session) (menu_pressed : bool)
         (user_query : string) (src : source),
    let p := fst (script_app3 cos_sim post render_results load_model
                    no_text_error caches s0 menu_pressed user_query src) in
    let catalog := catalog_of caches src in
    (sent p = [] \/
     exists name, In name catalog /\ sent p = [predict_request name]) /\
    (sent p <> [] <->
     user_query <> "" /\ catalog <> [] /\
     exists model index query_embedding,
       model_of load_model caches = Ok model /\
       encode_list no_text_error model catalog = Ok index /\
       model user_query = Ok query_embedding).
Proof.
  intros Sc O Vec cos_sim post render load_model no_text caches s0 pressed q src
         p catalog.
  destruct (script_app3_cases cos_sim post render load_model no_text
              caches s0 pressed q src) as [_ Hcases].
  fold p catalog in Hcases.
  assert (Hnone : sent p = [] ->
            (sent p = [] \/
             exists name, In name catalog /\ sent p = [predict_request name]))
    by (intros Hs; now left).
  destruct (model_of load_model caches) as [model|e].
  2:{ destruct Hcases as (_ & Hs & _). split; [auto|]. rewrite Hs.
      split; [congruence|]. intros (_ & _ & m & i & v & Hm & _). discriminate. }
  destruct (encode_list no_text model catalog) as [index|e] eqn:Hidx.
  2:{ destruct Hcases as (_ & Hs & _). split; [auto|]. rewrite Hs.
      split; [congruence|].
      intros (_ & _ & m & i & v & Hm & Hi & _). injection Hm as <-.
      congruence. }
  destruct q as [|c q']; cbn [truthy] in Hcases.
  { destruct Hcases as (_ & Hs & _). split; [auto|]. rewrite Hs.
    split; [congruence|]. intros (Hq & _). congruence. }
  set (q := String c q') in *.
  destruct (model q) as [qv|e] eqn:Hqv.
  2:{ destruct Hcases as (_ & Hs & _). split; [auto|]. rewrite Hs.
      split; [congruence|].
      intros (_ & _ & m & i & v & Hm & _ & Hv). injection Hm as <-.
      congruence. }
  destruct Hcases as [(Hempty & _ & Hs & _)
                     | (Hne & best & name & Hname & _ & _ & Hs & _)].
  - split; [auto|]. rewrite Hs. split; [congruence|]. intros (_ & Hc & _).
    contradiction.
  - split.
    + right. exists name. split; [eapply nth_error_In; eassumption | assumption].
    + rewrite Hs. split; [|discriminate]. intros _.
      split; [discriminate|]. split; [assumption|].
      exists model, index, qv. auto.
Qed.

Lemma X4_app3_calls_gateway_iff_query_and_catalog_witness :
  sent (fst (script_app3 Demo.cos_sim Demo.offline Demo.render_results
               (Ok DemoModel.encode) None DemoModel.cold
               {| show_menu := false |} false "soup" Demo.recipes_csv)) <> [].
Proof.
  apply (proj2 (X4_app3_calls_gateway_iff_query_and_catalog Z Z_scores Z
                  Demo.cos_sim Demo.offline Demo.render_results
                  (Ok DemoModel.encode) None DemoModel.cold
                  {| show_menu := false |} false "soup" Demo.recipes_csv)).
  split; [discriminate|]. split; [discriminate|].
  exists DemoModel.encode, [4; 12; 4]%Z, 4%Z. repeat split; reflexivity.
Defined.

(** X15.  Given a table that could be read, a run of [app3.py] ends in
    an uncaught exception exactly in these cases: the model cannot be
    loaded; the catalog cannot be encoded; or a query was typed and
    either it cannot be encoded or the catalog is empty.  Nothing the
    gateway or the view code does makes the run end that way, and a run
    that ends that way has matched nothing and sent nothing. *)
Theorem X15_app3_crashes_iff_query_on_empty_catalog :
  forall (Sc : Type) (O : ScoreOrder Sc) (Vec : Type)
         (cos_sim : Vec -> Vec -> Sc)
         (post : request -> reply)
         (render_results : string -> string -> list widget)
         (load_model : Py.result (string -> Py.result Vec))
         (no_text_error : option Py.exn)
         (caches : Caches Vec) (s0 : Session) (menu_pressed : bool)
         (user_query : string) (src : source),
    let p := fst (script_app3 cos_sim post render_results load_model
                    no_text_error caches s0 menu_pressed user_query src) in
    let catalog := catalog_of caches src in
    (uncaught p <> None <->
     (exists e, model_of load_model caches = Raise e) \/
     (exists model,
        model_of load_model caches = Ok model /\
        ((exists e, encode_list no_text_error model catalog = Raise e) \/
         (user_query <> "" /\
          ((exists e, model user_query = Raise e) \/ catalog = []))))) /\
    (uncaught p <> None -> matched_recipe p = None /\ sent p = []).
Proof.
  intros Sc O Vec cos_sim post render load_model no_text caches s0 pressed q src
         p catalog.
  destruct (script_app3_cases cos_sim post render load_model no_text
              caches s0 pressed q src) as [_ Hcases].
  fold p catalog in Hcases.
  destruct (model_of load_model caches) as [model|e].
  2:{ destruct Hcases as (Hu & Hs & Hm). rewrite Hu.
      split; [split; [eauto | discriminate] | auto]. }
  destruct (encode_list no_text model catalog) as [index|e] eqn:Hidx.
  2:{ destruct Hcases as (Hu & Hs & Hm). rewrite Hu. split; [|auto].
      split; [|discriminate]. intros _. right. exists model.
      split; [reflexivity|]. left. rewrite Hidx. eauto. }
  destruct q as [|c q']; cbn [truthy] in Hcases.
  { destruct Hcases as (Hu & Hs & Hm). rewrite Hu. split; [|congruence].
    split; [congruence|].
    intros [[e He] | (m & Hm' & [[e He] | [Hq _]])]; try discriminate.
    - injection Hm' as <-. congruence.
    - congruence. }
  set (q := String c q') in *.
  destruct (model q) as [qv|e] eqn:Hqv.
  2:{ destruct Hcases as (Hu & Hs & Hm). rewrite Hu. split; [|auto].
      split; [|discriminate]. intros _. right. exists model.
      split; [reflexivity|]. right. split; [discriminate|]. left.
      rewrite Hqv. eauto. }
  destruct Hcases as [(Hempty & Hu & Hs & Hm)
                     | (Hne & best & name & _ & _ & _ & _ & Hu & _)].
  - rewrite Hu. split; [|auto]. split; [|discriminate]. intros _.
    right. exists model. split; [reflexivity|]. right.
    split; [discriminate|]. now right.
  - rewrite Hu. split; [|congruence]. split; [congruence|].
    intros [[e He] | (m & Hm' & [[e He] | [_ [[e He] | Hc]]])];
      try discriminate; try contradiction.
    + injection Hm' as <-. congruence.
    + injection Hm' as <-. congruence.
Qed.

Lemma X15_app3_crashes_iff_query_on_empty_catalog_witness :
  uncaught (fst (script_app3 Demo.cos_sim Demo.post Demo.render_results
                   (Ok DemoModel.encode) None DemoModel.cold
                   {| show_menu := false |} false "soup?" Demo.recipes_csv))
    <> None.
Proof.
  apply (proj1 (X15_app3_crashes_iff_query_on_empty_catalog Z Z_scores Z
                  Demo.cos_sim Demo.post Demo.render_results
                  (Ok DemoModel.encode) None DemoModel.cold
                  {| show_menu := false |} false "soup?" Demo.recipes_csv)).
  right. exists DemoModel.encode. split; [reflexivity|]. right.
  split; [discriminate|]. left. exists "ValueError". reflexivity.
Defined.

(** ** The batch form of the encoder *)

Section ArgsortFacts.
Variable key : nat -> Z.

Lemma insert_by_perm (i : nat) (l : list nat) :
  Permutation (insert_by key i l) (i :: l).
Proof.
  induction l as [|j t IH]; simpl; [reflexivity|].
  destruct (key i <=? key j)%Z; [reflexivity|].
  rewrite IH. apply perm_swap.
Qed.

Lemma sort_by_perm (l : list nat) :
  Permutation (fold_right (insert_by key) [] l) l.
Proof.
  induction l as [|i t IH]; simpl; [reflexivity|].
  rewrite insert_by_perm. now apply perm_skip.
Qed.

Lemma insert_by_sorted (i : nat) (l : list nat) :
  StronglySorted (fun a b => (key a <= key b)%Z) l ->
  StronglySorted (fun a b => (key a <= key b)%Z) (insert_by key i l).
Proof.
  induction l as [|j t IH]; simpl; intros Hl.
  - repeat constructor.
  - apply StronglySorted_inv in Hl as [Ht Hj].
    destruct (Z.leb_spec (key i) (key j)) as [Hij|Hji].
    + constructor; [constructor; assumption|].
      constructor; [assumption|].
      eapply Forall_impl; [|exact Hj]. simpl. intros a Ha. lia.
    + constructor; [auto|].
      eapply Permutation_Forall; [symmetry; apply insert_by_perm|].
      constructor; [lia | assumption].
Qed.

Lemma sort_by_sorted (l : list nat) :
  StronglySorted (fun a b => (key a <= key b)%Z) (fold_right (insert_by key) [] l).
Proof.
  induction l as [|i t IH]; simpl; [constructor | now apply insert_by_sorted].
Qed.

Lemma map_key_sorted (l : list nat) :
  StronglySorted (fun a b => (key a <= key b)%Z) l ->
  StronglySorted Z.le (map key l).
Proof.
  induction l as [|i t IH]; simpl; intros Hl; [constructor|].
  apply StronglySorted_inv in Hl as [Ht Hi].
  constructor; [auto|]. now apply Forall_map.
Qed.

End ArgsortFacts.

(** Two lists in order with the same elements are the same list. *)
Lemma sorted_perm_unique (l l' : list Z) :
  StronglySorted Z.le l -> StronglySorted Z.le l' ->
  Permutation l l' -> l = l'.
Proof.
  revert l'. induction l as [|a t IH]; intros l' Hl Hl' Hperm.
  - apply Permutation_nil in Hperm. now subst.
  - destruct l' as [|a' t'];
      [apply Permutation_sym, Permutation_nil in Hperm; discriminate|].
    apply StronglySorted_inv in Hl as [Ht Ha].
    apply StronglySorted_inv in Hl' as [Ht' Ha'].
    assert (Haa' : a = a').
    { assert (Hin : In a (a' :: t'))
        by (eapply Permutation_in; [exact Hperm | now left]).
      assert (Hin' : In a' (a :: t))
        by (eapply Permutation_in; [symmetry; exact Hperm | now left]).
      rewrite Forall_forall in Ha, Ha'.
      destruct Hin as [|Hin]; [congruence|].
      destruct Hin' as [|Hin']; [congruence|].
      apply Z.le_antisymm; auto. }
    subst a'. f_equal. apply IH; trivial.
    now apply Permutation_cons_inv in Hperm.
Qed.

Lemma seq_sorted (start len : nat) :
  StronglySorted Z.le (map Z.of_nat (seq start len)).
Proof.
  revert start. induction len as [|n IH]; intros start; simpl; constructor.
  - apply IH.
  - apply Forall_map, Forall_forall. intros x Hx. apply in_seq in Hx. lia.
Qed.

Lemma map_nth_seq {A : Type} (l : list A) (d : A) :
  map (fun i => nth i l d) (seq 0 (List.length l)) = l.
Proof.
  induction l as [|x t IH]; simpl; [reflexivity|].
  f_equal. rewrite <- seq_shift, map_map. exact IH.
Qed.

(** [argsort] of a rearrangement of [0 .. n-1] undoes it. *)
Lemma argsort_inverts (order : list nat) (n : nat) :
  Permutation order (seq 0 n) ->
  map (fun j => nth j order 0) (argsort (map Z.of_nat order)) = seq 0 n.
Proof.
  intros Hperm.
  set (key := fun i => nth i (map Z.of_nat order) 0%Z).
  set (inv := argsort (map Z.of_nat order)).
  assert (Hinv : Permutation inv (seq 0 (List.length order))).
  { unfold inv, argsort. rewrite List.length_map. apply sort_by_perm. }
  assert (Hkeys : map key inv = map Z.of_nat (map (fun j => nth j order 0) inv)).
  { rewrite map_map. apply map_ext. intros j. unfold key.
    change 0%Z with (Z.of_nat 0). apply map_nth. }
  assert (Heq : map Z.of_nat (map (fun j => nth j order 0) inv)
                = map Z.of_nat (seq 0 n)).
  { rewrite <- Hkeys. apply sorted_perm_unique.
    - apply map_key_sorted. unfold inv, argsort. apply sort_by_sorted.
    - apply seq_sorted.
    - rewrite (Permutation_map key Hinv).
      unfold key. rewrite <- (List.length_map Z.of_nat order), map_nth_seq.
      now apply Permutation_map. }
  clear -Heq. revert Heq.
  generalize (map (fun j => nth j order 0) inv) (seq 0 n).
  induction l as [|a t IH]; intros [|b t']; simpl; intros Heq;
    try discriminate; [reflexivity|].
  injection Heq as Hab Ht. apply Nat2Z.inj in Hab. subst. f_equal. auto.
Qed.

Lemma by_length_perm (texts : list string) :
  Permutation (by_length texts) (seq 0 (List.length texts)).
Proof.
  unfold by_length, argsort. rewrite List.length_map. apply sort_by_perm.
Qed.

Lemma gather_in_range {A : Type} (l : list A) (d : A) (positions : list nat) :
  (forall i, In i positions -> i < List.length l) ->
  gather l positions = Ok (map (fun i => nth i l d) positions).
Proof.
  induction positions as [|i rest IH]; intros Hin; simpl; [reflexivity|].
  unfold getitem. rewrite (nth_error_nth' l d) by (apply Hin; now left).
  simpl. rewrite IH by (intros j Hj; apply Hin; now right). reflexivity.
Qed.

Lemma concat_batches {A : Type} (bound size : nat) :
  forall l : list A,
    1 <= size -> List.length l <= bound ->
    List.concat (batches bound size l) = l.
Proof.
  induction bound as [|b IH]; intros l Hsize Hlen.
  - destruct l; [reflexivity | simpl in Hlen; lia].
  - destruct l as [|x t]; [reflexivity|].
    change (batches (S b) size (x :: t))
      with (firstn size (x :: t) :: batches b size (skipn size (x :: t))).
    simpl List.concat. rewrite IH; [apply firstn_skipn | assumption |].
    rewrite length_skipn. cbn [List.length] in Hlen |- *. lia.
Qed.

(** Sorted, encoded in batches and put back, the rows are the
    encodings of the texts in the order of the texts. *)
Lemma encode_batch_rows {Vec : Type} (encode : string -> Vec)
    (order : list nat) (batch_size : nat) (texts : list string) :
  Permutation order (seq 0 (List.length texts)) ->
  1 <= batch_size ->
  encode_batch encode order batch_size texts = Ok (map encode texts).
Proof.
  intros Hperm Hsize. unfold encode_batch.
  assert (Hin : forall i, In i order -> i < List.length texts).
  { intros i Hi. apply (Permutation_in _ Hperm), in_seq in Hi. lia. }
  assert (Hlen : List.length order = List.length texts)
    by (rewrite (Permutation_length Hperm); apply length_seq).
  rewrite (gather_in_range texts "" order Hin). cbn [Py.bind].
  rewrite <- concat_map, concat_batches by (trivial; lia).
  set (sorted := map (fun i => nth i texts "") order).
  set (inv := argsort (map Z.of_nat order)).
  assert (Hinv : Permutation inv (seq 0 (List.length order))).
  { unfold inv, argsort. rewrite List.length_map. apply sort_by_perm. }
  rewrite (gather_in_range (map encode sorted) (encode "") inv).
  - f_equal.
    transitivity (map (fun k => encode (nth k texts ""))
                      (seq 0 (List.length texts)));
      [|now rewrite <- (map_map (fun k => nth k texts "") encode), map_nth_seq].
    rewrite <- (argsort_inverts order (List.length texts) Hperm).
    fold inv. rewrite map_map. apply map_ext_in. intros j Hj.
    apply (Permutation_in _ Hinv), in_seq in Hj.
    rewrite (map_nth encode). f_equal. unfold sorted.
    rewrite (nth_indep _ "" (nth 0 texts "")) by (rewrite List.length_map; lia).
    change (nth 0 texts "") with ((fun i => nth i texts "") 0).
    now rewrite map_nth.
  - intros j Hj. apply (Permutation_in _ Hinv), in_seq in Hj.
    unfold sorted. rewrite !List.length_map. lia.
Qed.

(** C4.  The library routine that builds the index sorts the catalog by
    length, encodes it in batches and puts the rows back; for every
    order the sort can give and every batch size, the index it returns
    is the index of the run: it has as many rows as the catalog, the row
    at each position is the encoding of the catalog entry at that
    position, and the run ends with this catalog and this index,
    however resolution and the gateway call went. *)
Theorem C4_index_aligned_with_catalog :
  forall (Sc : Type) (O : ScoreOrder Sc) (Vec : Type)
         (encode : string -> Vec) (cos_sim : Vec -> Vec -> Sc)
         (post : request -> reply)
         (render_results : string -> string -> list widget)
         (s0 : Session) (menu_pressed : bool) (user_query : string)
         (src : source) (length_sorted_idx : list nat) (batch_size : nat),
    let catalog := tolist (load_recipes src) in
    Permutation length_sorted_idx (seq 0 (List.length catalog)) ->
    1 <= batch_size ->
    let p := run_app3 encode cos_sim post render_results
               s0 menu_pressed user_query src in
    recipe_names p = catalog /\
    encode_batch encode length_sorted_idx batch_size catalog
      = Ok (recipe_embeddings p) /\
    List.length (recipe_embeddings p) = List.length (recipe_names p) /\
    (forall i, nth_error (recipe_embeddings p) i
               = option_map encode (nth_error (recipe_names p) i)).
Proof.
  intros Sc O Vec encode cos_sim post render s0 pressed q src order size
         catalog Hperm Hsize p.
  destruct (run_app3_catalog encode cos_sim post render s0 pressed q src)
    as [Hnames Hrows].
  fold p in Hnames, Hrows. rewrite Hnames, Hrows.
  split; [reflexivity|]. split; [now apply encode_batch_rows|].
  split; [apply encode_many_length | intros i; apply encode_many_row].
Qed.

Lemma C4_index_aligned_with_catalog_witness :
  encode_batch Demo.encode (by_length (load_recipes Demo.recipes_csv)) 2
    (load_recipes Demo.recipes_csv)
  = Ok (recipe_embeddings
          (run_app3 Demo.encode Demo.cos_sim Demo.post Demo.render_results
             {| show_menu := false |} false "soup" Demo.recipes_csv)).
Proof.
  apply (C4_index_aligned_with_catalog Z Z_scores Z Demo.encode Demo.cos_sim
           Demo.post Demo.render_results {| show_menu := false |} false "soup"
           Demo.recipes_csv (by_length (load_recipes Demo.recipes_csv)) 2).
  - apply by_length_perm.
  - lia.
Defined.
